(** * ddbtools: a shallow embedding of [ddbtools.py]

    The development follows the source file top to bottom:
    - the values, tables and transactional store of the SQL engine the
      session drives;
    - [Connection]: [__enter__], [__exit__], [regfn];
    - the three slice iterators [iter_group], [iter_window], [iter_chunk],
      as explicit generator state machines;
    - [push];
    - [json_wrap] over a model of the JSON text codec.

    Python exceptions are values of [exn]; every operation that can raise
    returns a [result]. *)

From Stdlib Require Import ZArith List String Ascii Bool Lia.
From Stdlib Require Import Sorting.Sorted Sorting.Permutation HexString.
From Stdlib Require Import Decimal DecimalString.
From Stdlib Require DecimalPos.
Import ListNotations.

Set Implicit Arguments.
Set Warnings "-register-all".
Open Scope string_scope.
Open Scope list_scope.
Open Scope Z_scope.

(** ** Exceptions and the error monad *)

Inductive exn : Type :=
| TypeError (msg : string)
| AttributeError (msg : string)
| EngineError (msg : string)
| UserError (tag : nat).

Inductive result (A : Type) : Type :=
| Ok (a : A)
| Raised (e : exn).

Arguments Ok {A} a.
Arguments Raised {A} e.

Definition bind {A B} (m : result A) (k : A -> result B) : result B :=
  match m with
  | Ok a => k a
  | Raised e => Raised e
  end.

Notation "x <- m ;; k" := (bind m (fun x => k))
  (at level 61, m at next level, right associativity).

(** ** Values, rows, tables *)

Inductive value : Type :=
| VNull
| VInt (z : Z)
| VStr (s : string).

(** A row carries the engine's intrinsic sequential identifier next to its
    cells; [SELECT *] shows the cells only, the identifier stays as the
    provenance of the row inside a slice. *)
Record row : Type := mkRow { rowid : Z; cells : list value }.

Record table : Type := mkTable { header : list string; rows : list row }.

(** A slice is the data frame a query materialises. *)
Record slice : Type := mkSlice { columns : list string; srows : list row }.

Record index : Type :=
  mkIndex { index_name : string; index_table : string; index_cols : list string }.

(** The transactional part of a database: what [commit] makes durable and
    [rollback] discards. *)
Record store : Type := mkStore {
  tables : list (string * table);
  indexes : list index;
  macros : list string
}.

Definition empty_store : store := mkStore [] [] [].

(** ** The engine connection *)

(** Modelled from the spec: the embedded SQL engine (the [duckdb] module is
    not part of the repository).  A connection sees a working [store]; the
    database file holds the durable one.  Outside a transaction every
    statement commits at once; [begin] opens a transaction, [commit] makes
    the working store durable, [rollback] discards it.  Registered views
    and functions belong to the connection and are not transactional.
    Following the comment in [regfn], [create_function] begins a new
    transaction. *)
Record handle : Type := mkHandle {
  work : store;
  in_txn : bool;
  is_open : bool;
  functions : list string;
  views : list (string * slice)
}.

(** The world a [Connection] object lives in: the database file at
    [db_path], the attribute [self.conn] ([None] before [__enter__]) and
    the supply of [uuid.uuid4()] tokens. *)
Record state : Type := mkState {
  disk : store;
  conn : option handle;
  uuid_seed : N
}.

Definition set_conn (st : state) (h : handle) : state :=
  mkState (disk st) (Some h) (uuid_seed st).

Definition closed_error : exn := EngineError "connection closed".
Definition none_error : exn :=
  AttributeError "'NoneType' object has no attribute".

(** Every call [self.conn.m(...)] goes through the live handle. *)
Definition the_conn (st : state) : result handle :=
  match conn st with
  | None => Raised none_error
  | Some h => if is_open h then Ok h else Raised closed_error
  end.

Definition duckdb_connect (st : state) : state :=
  set_conn st (mkHandle (disk st) false true [] []).

(** A statement that changes the store: inside a transaction it touches
    the working store only, outside it commits at once. *)
Definition run_write (f : store -> result store) (st : state) : result state :=
  h <- the_conn st ;;
  s' <- f (work h) ;;
  let h' := mkHandle s' (in_txn h) true (functions h) (views h) in
  Ok (mkState (if in_txn h then disk st else s') (Some h') (uuid_seed st)).

Definition conn_begin (st : state) : result state :=
  h <- the_conn st ;;
  if in_txn h then Raised (EngineError "cannot start a transaction within a transaction")
  else Ok (set_conn st (mkHandle (work h) true true (functions h) (views h))).

Definition conn_commit (st : state) : result state :=
  h <- the_conn st ;;
  if in_txn h
  then Ok (mkState (work h)
                   (Some (mkHandle (work h) false true (functions h) (views h)))
                   (uuid_seed st))
  else Raised (EngineError "cannot commit - no transaction is active").

Definition conn_rollback (st : state) : result state :=
  h <- the_conn st ;;
  if in_txn h
  then Ok (set_conn st (mkHandle (disk st) false true (functions h) (views h)))
  else Raised (EngineError "cannot rollback - no transaction is active").

(** Closing abandons whatever was not committed. *)
Definition conn_close (st : state) : result state :=
  match conn st with
  | None => Raised none_error
  | Some h => Ok (set_conn st (mkHandle (disk st) false false (functions h) (views h)))
  end.

Definition conn_create_function (name : string) (st : state) : result state :=
  h <- the_conn st ;;
  if in_txn h then Raised (EngineError "cannot start a transaction within a transaction")
  else Ok (set_conn st (mkHandle (work h) true true (name :: functions h) (views h))).

(** ** [Connection]: the transaction-scoped session *)

Definition install_js (s : store) : store :=
  mkStore (tables s) (indexes s)
          ("js" :: filter (fun m => negb (String.eqb m "js")) (macros s)).

(** [Connection.__enter__] *)
Definition __enter__ (st : state) : result state :=
  let st := duckdb_connect st in
  st <- run_write (fun s => Ok (install_js s)) st ;;
  conn_begin st.

(** [Connection.__exit__]: [exc] is [exc_val], [None] on a normal exit.
    Returns the exception that leaves the [with] statement, if any. *)
Definition __exit__ (exc : option exn) (st : state) : option exn * state :=
  match exc with
  | Some e =>
      match conn_rollback st with
      | Ok st' => (Some e, st')
      | Raised e' => (Some e', st)
      end
  | None =>
      match conn_commit st with
      | Ok st' =>
          match conn_close st' with
          | Ok st'' => (None, st'')
          | Raised e' => (Some e', st')
          end
      | Raised e' => (Some e', st)
      end
  end.

(** [Connection.regfn] *)
Definition regfn (name : string) (st : state) : result state :=
  st <- conn_commit st ;;
  conn_create_function name st.

(** What the body of a [with conn:] block does, one action at a time. *)
Inductive action : Type :=
| AWrite (w : store -> store)
| ARegfn (name : string)
| ARaise (e : exn).

(** Runs the body until it ends or an action raises; returns the exception
    in flight, if any, and the state reached. *)
Fixpoint run_body (body : list action) (st : state) : option exn * state :=
  match body with
  | [] => (None, st)
  | AWrite w :: rest =>
      match run_write (fun s => Ok (w s)) st with
      | Ok st' => run_body rest st'
      | Raised e => (Some e, st)
      end
  | ARegfn f :: rest =>
      match regfn f st with
      | Ok st' => run_body rest st'
      | Raised e => (Some e, st)
      end
  | ARaise e :: _ => (Some e, st)
  end.

(** [with conn: body] *)
Definition with_session (body : list action) (st : state) : option exn * state :=
  match __enter__ st with
  | Raised e => (Some e, st)
  | Ok st1 =>
      let '(exc, st2) := run_body body st1 in
      __exit__ exc st2
  end.

(** The stores a later session can see, and the writes of a body taken on
    their own. *)
Definition visible (st : state) : store := disk st.

Definition apply_writes (body : list action) (s : store) : store :=
  fold_left (fun s a => match a with AWrite w => w s | _ => s end) body s.

Definition is_raise (a : action) : bool :=
  match a with ARaise _ => true | _ => false end.

(** ** Python values

    The arguments of the iterators and the values [fetchone] hands back are
    Python objects; [value] doubles as their model: [VNull] is [None],
    [VInt] an [int], [VStr] a [str]. *)

(** [bool(v)] *)
Definition truthy (v : value) : bool :=
  match v with
  | VNull => false
  | VInt z => negb (z =? 0)
  | VStr s => negb (String.eqb s "")
  end.

(** [a or b] *)
Definition py_or (a b : value) : value := if truthy a then a else b.

(** [a + b] *)
Definition py_add (a b : value) : result value :=
  match a, b with
  | VInt x, VInt y => Ok (VInt (x + y))
  | VStr x, VStr y => Ok (VStr (x ++ y)%string)
  | _, _ => Raised (TypeError "unsupported operand type(s) for +")
  end.

(** [a <= b] *)
Definition py_le (a b : value) : result bool :=
  match a, b with
  | VInt x, VInt y => Ok (x <=? y)
  | VStr x, VStr y => Ok (String.leb x y)
  | _, _ => Raised (TypeError "'<=' not supported between instances")
  end.

(** [str.lower], on the code points below 256. *)
Definition lower_ascii (c : ascii) : ascii :=
  let n := N_of_ascii c in
  if ((65 <=? n) && (n <=? 90) ||
      (192 <=? n) && (n <=? 222) && negb (n =? 215))%N
  then ascii_of_N (n + 32) else c.

Fixpoint lower (s : string) : string :=
  match s with
  | EmptyString => EmptyString
  | String c s' => String (lower_ascii c) (lower s')
  end.

(** ** Queries *)

(** Modelled from the spec: the statements the source sends to the engine,
    with SQL's three-valued comparisons ([NULL] compares as unknown, and a
    [WHERE] clause keeps the rows whose condition is true).  Identifiers are
    matched ignoring case.  Columns are typed in the engine, so an integer
    is never compared with a text inside a well-typed table; the model
    leaves such a comparison unknown. *)
Definition name_eqb (a b : string) : bool := String.eqb (lower a) (lower b).

Fixpoint find_table (name : string) (ts : list (string * table)) : option table :=
  match ts with
  | [] => None
  | (n, t) :: ts' => if name_eqb name n then Some t else find_table name ts'
  end.

Fixpoint col_index (c : string) (hdr : list string) : option nat :=
  match hdr with
  | [] => None
  | h :: hdr' => if name_eqb c h then Some O
                 else option_map S (col_index c hdr')
  end.

Fixpoint col_indexes (cs : list string) (hdr : list string) : option (list nat) :=
  match cs with
  | [] => Some []
  | c :: cs' =>
      match col_index c hdr, col_indexes cs' hdr with
      | Some i, Some ix => Some (i :: ix)
      | _, _ => None
      end
  end.

Definition cell (i : nat) (r : row) : value := nth i (cells r) VNull.

Definition key_of (ix : list nat) (r : row) : list value :=
  map (fun i => cell i r) ix.

Definition sql_eq (a b : value) : option bool :=
  match a, b with
  | VInt x, VInt y => Some (x =? y)
  | VStr x, VStr y => Some (String.eqb x y)
  | _, _ => None
  end.

Definition sql_ge (a b : value) : option bool :=
  match a, b with
  | VInt x, VInt y => Some (y <=? x)
  | VStr x, VStr y => Some (String.leb y x)
  | _, _ => None
  end.

Definition sql_lt (a b : value) : option bool :=
  match a, b with
  | VInt x, VInt y => Some (x <? y)
  | VStr x, VStr y => Some (String.ltb x y)
  | _, _ => None
  end.

(** Three-valued [AND] and the test a [WHERE] clause applies. *)
Definition sql_and (a b : option bool) : option bool :=
  match a, b with
  | Some false, _ | _, Some false => Some false
  | Some true, Some true => Some true
  | _, _ => None
  end.

Definition is_true (o : option bool) : bool :=
  match o with Some true => true | _ => false end.

(** The order of [ORDER BY ... ASC]: integers by value, texts by code
    point, [NULL] last. *)
Definition value_leb (a b : value) : bool :=
  match a, b with
  | _, VNull => true
  | VNull, _ => false
  | VInt x, VInt y => x <=? y
  | VInt _, VStr _ => true
  | VStr _, VInt _ => false
  | VStr x, VStr y => String.leb x y
  end.

Definition value_eqb (a b : value) : bool :=
  match a, b with
  | VNull, VNull => true
  | VInt x, VInt y => x =? y
  | VStr x, VStr y => String.eqb x y
  | _, _ => false
  end.

Fixpoint key_eqb (k1 k2 : list value) : bool :=
  match k1, k2 with
  | [], [] => true
  | a :: k1', b :: k2' => value_eqb a b && key_eqb k1' k2'
  | _, _ => false
  end.

(** Lexicographic order of key tuples. *)
Fixpoint key_leb (k1 k2 : list value) : bool :=
  match k1, k2 with
  | [], _ => true
  | _ :: _, [] => false
  | a :: k1', b :: k2' =>
      if value_eqb a b then key_leb k1' k2' else value_leb a b
  end.

Fixpoint insert_by {A} (leb : A -> A -> bool) (x : A) (l : list A) : list A :=
  match l with
  | [] => [x]
  | y :: l' => if leb x y then x :: l else y :: insert_by leb x l'
  end.

Fixpoint sort_by {A} (leb : A -> A -> bool) (l : list A) : list A :=
  match l with
  | [] => []
  | x :: l' => insert_by leb x (sort_by leb l')
  end.

(** [SELECT DISTINCT]: the first occurrence of every key is kept. *)
Fixpoint distinct (ks : list (list value)) : list (list value) :=
  match ks with
  | [] => []
  | k :: ks' => k :: filter (fun k' => negb (key_eqb k k')) (distinct ks')
  end.

Definition no_table (name : string) : exn :=
  EngineError ("Catalog Error: table does not exist: " ++ name)%string.
Definition no_column : exn :=
  EngineError "Binder Error: referenced column not found".
Definition syntax_error : exn :=
  EngineError "Parser Error: syntax error".

Definition get_table (name : string) (s : store) : result table :=
  match find_table name (tables s) with
  | Some t => Ok t
  | None => Raised (no_table name)
  end.

Definition get_cols (cs : list string) (t : table) : result (list nat) :=
  match cs with
  | [] => Raised syntax_error
  | _ => match col_indexes cs (header t) with
         | Some ix => Ok ix
         | None => Raised no_column
         end
  end.

(** [CREATE INDEX name ON table_name(cols)] *)
Definition sql_create_index (name table_name : string) (cols : list string)
  (s : store) : result store :=
  t <- get_table table_name s ;;
  _ <- get_cols cols t ;;
  if existsb (fun i => name_eqb name (index_name i)) (indexes s)
  then Raised (EngineError "Catalog Error: index already exists")
  else Ok (mkStore (tables s) (mkIndex name table_name cols :: indexes s) (macros s)).

(** [DROP INDEX name] *)
Definition sql_drop_index (name : string) (s : store) : result store :=
  if existsb (fun i => name_eqb name (index_name i)) (indexes s)
  then Ok (mkStore (tables s)
                   (filter (fun i => negb (name_eqb name (index_name i))) (indexes s))
                   (macros s))
  else Raised (EngineError "Catalog Error: index does not exist").

(** [SELECT DISTINCT cols FROM table_name ORDER BY cols] *)
Definition sql_select_distinct (table_name : string) (cols : list string)
  (s : store) : result (list (list value)) :=
  t <- get_table table_name s ;;
  ix <- get_cols cols t ;;
  Ok (sort_by key_leb (distinct (map (key_of ix) (rows t)))).

Fixpoint key_matches (ix : list nat) (key : list value) (r : row) : option bool :=
  match ix, key with
  | [], _ => Some true
  | i :: ix', [] => Some true
  | i :: ix', k :: key' => sql_and (sql_eq (cell i r) k) (key_matches ix' key' r)
  end.

(** [SELECT * FROM table_name WHERE c1 = ? AND ... AND cn = ?], with the
    key tuple as parameters. *)
Definition sql_select_where_eq (table_name : string) (cols : list string)
  (key : list value) (s : store) : result slice :=
  t <- get_table table_name s ;;
  ix <- get_cols cols t ;;
  if negb (List.length key =? List.length cols)%nat
  then Raised (EngineError "Invalid Input Error: wrong number of parameters")
  else Ok (mkSlice (header t) (filter (fun r => is_true (key_matches ix key r)) (rows t))).

Definition v_min (a b : value) : value :=
  match a, b with
  | VNull, x | x, VNull => x
  | _, _ => if value_leb a b then a else b
  end.

Definition v_max (a b : value) : value :=
  match a, b with
  | VNull, x | x, VNull => x
  | _, _ => if value_leb a b then b else a
  end.

(** [SELECT MIN(col), MAX(col) FROM table_name]: [NULL]s are skipped, and
    both are [NULL] when nothing is left. *)
Definition sql_min_max (table_name col : string) (s : store) : result (value * value) :=
  t <- get_table table_name s ;;
  ix <- get_cols [col] t ;;
  let vs := map (fun r => cell (hd O ix) r) (rows t) in
  Ok (fold_right v_min VNull vs, fold_right v_max VNull vs).

Definition in_window (c lo hi : value) : bool :=
  is_true (sql_and (sql_ge c lo) (sql_lt c hi)).

(** [SELECT * FROM table_name WHERE col >= ? AND col < ? ORDER BY col] *)
Definition sql_select_range (table_name col : string) (lo hi : value)
  (s : store) : result slice :=
  t <- get_table table_name s ;;
  ix <- get_cols [col] t ;;
  let i := hd O ix in
  Ok (mkSlice (header t)
        (sort_by (fun r1 r2 => value_leb (cell i r1) (cell i r2))
           (filter (fun r => in_window (cell i r) lo hi) (rows t)))).

(** [SELECT MIN(rowid), MAX(rowid) FROM table_name] *)
Definition sql_min_max_rowid (table_name : string) (s : store) : result (value * value) :=
  t <- get_table table_name s ;;
  let vs := map (fun r => VInt (rowid r)) (rows t) in
  Ok (fold_right v_min VNull vs, fold_right v_max VNull vs).

(** [SELECT * FROM table_name WHERE rowid >= ? AND rowid < ? ORDER BY rowid] *)
Definition sql_select_rowid_range (table_name : string) (lo hi : value)
  (s : store) : result slice :=
  t <- get_table table_name s ;;
  Ok (mkSlice (header t)
        (sort_by (fun r1 r2 => rowid r1 <=? rowid r2)
           (filter (fun r => in_window (VInt (rowid r)) lo hi) (rows t)))).

(** ** The state monad of the methods

    A method runs against the [state] and either returns or raises; the
    state reached is kept in both cases. *)

Definition M (A : Type) : Type := state -> result A * state.

Definition ret {A} (a : A) : M A := fun st => (Ok a, st).

Definition raise {A} (e : exn) : M A := fun st => (Raised e, st).

Definition bindM {A B} (m : M A) (k : A -> M B) : M B :=
  fun st => match m st with
            | (Ok a, st') => k a st'
            | (Raised e, st') => (Raised e, st')
            end.

Notation "x <~ m ;; k" := (bindM m (fun x => k))
  (at level 61, m at next level, right associativity).
Notation "m ;;; k" := (bindM m (fun _ => k))
  (at level 61, right associativity).

Definition lift {A} (r : result A) : M A := fun st => (r, st).

(** [self.conn.execute(stmt)] for a statement that changes the store. *)
Definition execute (f : store -> result store) : M unit :=
  fun st => match run_write f st with
            | Ok st' => (Ok tt, st')
            | Raised e => (Raised e, st)
            end.

(** [self.conn.execute(query).fetchall()] and the like: the store is read. *)
Definition query {A} (q : store -> result A) : M A :=
  fun st => match the_conn st with
            | Ok h => (q (work h), st)
            | Raised e => (Raised e, st)
            end.

(** Modelled from the spec: the unique-token generator ([uuid.uuid4] is
    outside the repository).  Tokens are drawn from a counter and written
    in hexadecimal, so two draws never give the same text. *)
Definition uuid_str (n : N) : string :=
  match n with
  | N0 => "0"
  | Npos p => HexString.Raw.of_pos p ""
  end.

Definition uuid4 : M string :=
  fun st => (Ok (uuid_str (uuid_seed st)),
             mkState (disk st) (conn st) (N.succ (uuid_seed st))).

(** ** Generators

    A generator is a state machine: [next] runs the body up to the next
    [yield] and returns the slice with the suspended generator, or [None]
    when the body returns ([StopIteration]). *)

Definition gen_step (G : Type) : Type := M (option (slice * G)).

Inductive ending : Type :=
| Exhausted
| Failed (e : exn)
| OutOfFuel.

(** [for df in gen: ...] with a body that leaves the database alone: the
    slices in yield order and the way the loop ended. *)
Fixpoint drain {G} (next : G -> gen_step G) (fuel : nat) (g : G) (st : state)
  : list slice * ending * state :=
  match fuel with
  | O => ([], OutOfFuel, st)
  | S fuel' =>
      match next g st with
      | (Ok (Some (df, g')), st') =>
          let '(dfs, e, st'') := drain next fuel' g' st' in
          (df :: dfs, e, st'')
      | (Ok None, st') => ([], Exhausted, st')
      | (Raised e, st') => ([], Failed e, st')
      end
  end.

(** ** [Connection.iter_group] *)

(** The [columns] argument: a list of column names or any other object. *)
Inductive columns_arg : Type :=
| ColList (cols : list string)
| ColOther.

Inductive group_gen : Type :=
| GroupStart (table_name : string) (columns : columns_arg)
| GroupFor (index_name table_name : string) (columns : list string)
           (groups : list (list value)).

(** The [for row in groups] loop, entered or resumed, and the statement
    after it. *)
Definition group_for (index_name table_name : string) (columns : list string)
  (groups : list (list value)) : gen_step group_gen :=
  match groups with
  | row :: rest =>
      df <~ query (sql_select_where_eq table_name columns row) ;;
      ret (Some (df, GroupFor index_name table_name columns rest))
  | [] =>
      execute (sql_drop_index index_name) ;;;
      ret None
  end.

Definition iter_group (g : group_gen) : gen_step group_gen :=
  match g with
  | GroupStart table_name columns =>
      match columns with
      | ColOther => raise (TypeError "'columns' must be a list")
      | ColList cols =>
          tok <~ uuid4 ;;
          let index_name := ("tempIndex" ++ tok)%string in
          execute (sql_create_index index_name table_name cols) ;;;
          groups <~ query (sql_select_distinct table_name cols) ;;
          group_for index_name table_name cols groups
      end
  | GroupFor index_name table_name cols groups =>
      group_for index_name table_name cols groups
  end.

(** ** [Connection.iter_window] *)

Inductive window_gen : Type :=
| WindowStart (table_name refcol : string)
              (window_size step_size start end_ : value)
| WindowResume (index_name table_name refcol : string)
               (window_size step_size end_ current_start : value).

(** The [while current_start <= end] test with the loop body up to its
    [yield], and the statement after the loop. *)
Definition window_while (index_name table_name refcol : string)
  (window_size step_size end_ current_start current_end : value)
  : gen_step window_gen :=
  c <~ lift (py_le current_start end_) ;;
  if c : bool then
    df <~ query (sql_select_range table_name refcol current_start current_end) ;;
    ret (Some (df, WindowResume index_name table_name refcol
                                window_size step_size end_ current_start))
  else
    execute (sql_drop_index index_name) ;;;
    ret None.

Definition iter_window (g : window_gen) : gen_step window_gen :=
  match g with
  | WindowStart table_name refcol window_size step_size start end_ =>
      let step_size := if negb (truthy step_size) then window_size else step_size in
      tok <~ uuid4 ;;
      let index_name := ("tempIndex" ++ tok)%string in
      execute (sql_create_index index_name table_name [refcol]) ;;;
      bounds <~ query (sql_min_max table_name refcol) ;;
      let start := py_or start (fst bounds) in
      let end_ := py_or end_ (snd bounds) in
      let current_start := start in
      current_end <~ lift (py_add current_start window_size) ;;
      window_while index_name table_name refcol window_size step_size end_
                   current_start current_end
  | WindowResume index_name table_name refcol window_size step_size end_
                 current_start =>
      current_start <~ lift (py_add current_start step_size) ;;
      current_end <~ lift (py_add current_start window_size) ;;
      window_while index_name table_name refcol window_size step_size end_
                   current_start current_end
  end.

(** ** [Connection.iter_chunk] *)

Inductive chunk_gen : Type :=
| ChunkStart (table_name : string) (chunk_size : value)
| ChunkResume (table_name : string) (chunk_size end_ current_start : value).

Definition chunk_while (table_name : string)
  (chunk_size end_ current_start current_end : value) : gen_step chunk_gen :=
  c <~ lift (py_le current_start end_) ;;
  if c : bool then
    df <~ query (sql_select_rowid_range table_name current_start current_end) ;;
    ret (Some (df, ChunkResume table_name chunk_size end_ current_start))
  else
    ret None.

Definition iter_chunk (g : chunk_gen) : gen_step chunk_gen :=
  match g with
  | ChunkStart table_name chunk_size =>
      bounds <~ query (sql_min_max_rowid table_name) ;;
      let current_start := fst bounds in
      current_end <~ lift (py_add current_start chunk_size) ;;
      chunk_while table_name chunk_size (snd bounds) current_start current_end
  | ChunkResume table_name chunk_size end_ current_start =>
      current_start <~ lift (py_add current_start chunk_size) ;;
      current_end <~ lift (py_add current_start chunk_size) ;;
      chunk_while table_name chunk_size end_ current_start current_end
  end.

(** ** [Connection.push] *)

(** Modelled from the spec: views registered on the connection and the
    statements that copy one into a table.  [SHOW TABLES] lists the tables
    of the store.  A new table takes the shape of the view and numbers its
    rows from 0; appended rows continue after the largest identifier. *)
Definition remove_view (name : string) (vs : list (string * slice)) : list (string * slice) :=
  filter (fun p => negb (name_eqb name (fst p))) vs.

Definition conn_register (name : string) (df : slice) : M unit :=
  fun st => match the_conn st with
            | Ok h => (Ok tt, set_conn st (mkHandle (work h) (in_txn h) true (functions h)
                                             ((name, df) :: remove_view name (views h))))
            | Raised e => (Raised e, st)
            end.

Definition conn_unregister (name : string) : M unit :=
  fun st => match the_conn st with
            | Ok h => (Ok tt, set_conn st (mkHandle (work h) (in_txn h) true (functions h)
                                             (remove_view name (views h))))
            | Raised e => (Raised e, st)
            end.

Fixpoint find_view (name : string) (vs : list (string * slice)) : option slice :=
  match vs with
  | [] => None
  | (n, v) :: vs' => if name_eqb name n then Some v else find_view name vs'
  end.

Fixpoint renumber (from : Z) (rs : list row) : list row :=
  match rs with
  | [] => []
  | r :: rs' => mkRow from (cells r) :: renumber (from + 1) rs'
  end.

Definition next_rowid (rs : list row) : Z :=
  fold_right (fun r m => Z.max (rowid r + 1) m) 0 rs.

Definition sql_show_tables (s : store) : result (list string) :=
  Ok (map fst (tables s)).

(** [CREATE TABLE table_name AS SELECT * FROM view] *)
Definition sql_create_table_as (table_name : string) (view : option slice)
  (s : store) : result store :=
  match view with
  | None => Raised (no_table "view")
  | Some df =>
      match find_table table_name (tables s) with
      | Some _ => Raised (EngineError "Catalog Error: table already exists")
      | None =>
          Ok (mkStore (tables s ++ [(table_name, mkTable (columns df) (renumber 0 (srows df)))])
                      (indexes s) (macros s))
      end
  end.

Fixpoint append_rows (table_name : string) (df : slice) (ts : list (string * table))
  : list (string * table) :=
  match ts with
  | [] => []
  | (n, t) :: ts' =>
      if name_eqb table_name n
      then (n, mkTable (header t) (rows t ++ renumber (next_rowid (rows t)) (srows df))) :: ts'
      else (n, t) :: append_rows table_name df ts'
  end.

(** [INSERT INTO table_name SELECT * FROM view] *)
Definition sql_insert_select (table_name : string) (view : option slice)
  (s : store) : result store :=
  match view with
  | None => Raised (no_table "view")
  | Some df =>
      t <- get_table table_name s ;;
      if negb (List.length (header t) =? List.length (columns df))%nat
      then Raised (EngineError "Binder Error: table and view have different numbers of columns")
      else Ok (mkStore (append_rows table_name df (tables s)) (indexes s) (macros s))
  end.

(** A statement that reads a registered view. *)
Definition execute_from (view_name : string)
  (f : option slice -> store -> result store) : M unit :=
  fun st => match the_conn st with
            | Ok h => execute (f (find_view view_name (views h))) st
            | Raised e => (Raised e, st)
            end.

Definition push (df : slice) (table_name : string) : M unit :=
  names <~ query sql_show_tables ;;
  let tables := map lower names in
  tok <~ uuid4 ;;
  let dfview_name := ("tempDFView" ++ tok)%string in
  conn_register dfview_name df ;;;
  (if negb (existsb (String.eqb (lower table_name)) tables)
   then execute_from dfview_name (sql_create_table_as table_name)
   else execute_from dfview_name (sql_insert_select table_name)) ;;;
  conn_unregister dfview_name.

(** ** The fixture of the tests: the [emp] table

    [hiredate] is kept as the number [yyyymmdd]. *)

Definition emp_header : list string :=
  ["empno"; "ename"; "job"; "mgr"; "hiredate"; "sal"; "comm"; "deptno"].

Definition emp_row (id empno : Z) (ename job : string) (mgr : value)
  (hiredate sal : Z) (comm : value) (deptno : Z) : row :=
  mkRow id [VInt empno; VStr ename; VStr job; mgr; VInt hiredate; VInt sal;
            comm; VInt deptno].

Definition emp : table :=
  mkTable emp_header
    [ emp_row 0 7369 "SMITH" "CLERK" (VInt 7902) 20051217 800 VNull 20;
      emp_row 1 7499 "ALLEN" "SALESMAN" (VInt 7698) 20060220 1600 (VInt 300) 30;
      emp_row 2 7521 "WARD" "SALESMAN" (VInt 7698) 20060222 1250 (VInt 500) 30;
      emp_row 3 7566 "JONES" "MANAGER" (VInt 7839) 20060402 2975 VNull 20;
      emp_row 4 7654 "MARTIN" "SALESMAN" (VInt 7698) 20060928 1250 (VInt 1400) 30;
      emp_row 5 7698 "BLAKE" "MANAGER" (VInt 7839) 20060501 2850 VNull 30;
      emp_row 6 7782 "CLARK" "MANAGER" (VInt 7839) 20060609 2450 VNull 10;
      emp_row 7 7788 "SCOTT" "ANALYST" (VInt 7566) 20071209 3000 VNull 20;
      emp_row 8 7839 "KING" "PRESIDENT" VNull 20061117 5000 VNull 10;
      emp_row 9 7844 "TURNER" "SALESMAN" (VInt 7698) 20060908 1500 (VInt 0) 30;
      emp_row 10 7876 "ADAMS" "CLERK" (VInt 7788) 20080112 1100 VNull 20;
      emp_row 11 7900 "JAMES" "CLERK" (VInt 7698) 20061203 950 VNull 30;
      emp_row 12 7902 "FORD" "ANALYST" (VInt 7566) 20061203 3000 VNull 20;
      emp_row 13 7934 "MILLER" "CLERK" (VInt 7782) 20070123 1300 VNull 10 ].

(** A session in the middle of its [with] block over a given store. *)
Definition in_session (s : store) : state :=
  mkState s (Some (mkHandle s true true [] [])) 0%N.

Definition emp_store : store := mkStore [("emp", emp)] [] [].

Definition sizes (dfs : list slice) : list nat :=
  map (fun df => List.length (srows df)) dfs.

(** ** Vocabulary of the statements *)

(** A state whose connection is open inside a transaction. *)
Definition live (st : state) : Prop :=
  exists h, conn st = Some h /\ is_open h = true /\ in_txn h = true.

(** The store the connection works on. *)
Definition work_of (st : state) : store :=
  match conn st with
  | Some h => work h
  | None => disk st
  end.

(** A fresh world: an empty database file, no connection yet. *)
Definition st0 : state := mkState empty_store None 0%N.

Definition add_table (name : string) (s : store) : store :=
  mkStore ((name, mkTable [] []) :: tables s) (indexes s) (macros s).

(** The session is connected and sees table [t] under the name [tn]. *)
Definition sees (st : state) (tn : string) (t : table) : Prop :=
  exists h, the_conn st = Ok h /\ find_table tn (tables (work h)) = Some t.

(** Orders and ranges over an integer key. *)
Definition key_le {A} (key : A -> Z) (x y : A) : Prop := key x <= key y.

Definition by_key {A} (key : A -> Z) (x y : A) : bool := key x <=? key y.

Definition between {A} (key : A -> Z) (lo hi : Z) (x : A) : bool :=
  (lo <=? key x) && (key x <? hi).

Definition by_rowid : row -> row -> bool := by_key rowid.

(** The rows of a table in identifier order. *)
Definition rows_by_rowid (t : table) : list row := sort_by by_rowid (rows t).

(** The engine's answer to [MIN(col), MAX(col)] over column [i]. *)
Definition column_bounds (i : nat) (t : table) : value * value :=
  (fold_right v_min VNull (map (cell i) (rows t)),
   fold_right v_max VNull (map (cell i) (rows t))).

Definition by_cell (i : nat) (r1 r2 : row) : bool :=
  value_leb (cell i r1) (cell i r2).

(** The slice of one window tick: the rows of column [i] in [[lo, hi)]. *)
Definition window_slice (t : table) (i : nat) (lo hi : Z) : slice :=
  mkSlice (header t)
    (sort_by (by_cell i)
       (filter (fun r => in_window (cell i r) (VInt lo) (VInt hi)) (rows t))).

(** The slices of [n] ticks of width [S] and step [T] from [cs] on. *)
Fixpoint window_slices (t : table) (i : nat) (S T : Z) (n : nat) (cs : Z)
  : list slice :=
  match n with
  | O => []
  | Datatypes.S n' => window_slice t i cs (cs + S) :: window_slices t i S T n' (cs + T)
  end.

(** How many ticks the loop [while current_start <= end] makes from [a]
    to [b] in steps of [T]. *)
Definition ticks (a b T : Z) : nat :=
  if a <=? b then Z.to_nat ((b - a) / T + 1) else O.

(** The reference value of a row lies in [[lo, hi)]. *)
Definition ref_in (i : nat) (lo hi : Z) (r : row) : Prop :=
  exists z, cell i r = VInt z /\ lo <= z < hi.

(** No index of the store bears the name. *)
Definition index_free (name : string) (s : store) : Prop :=
  existsb (fun i => name_eqb name (index_name i)) (indexes s) = false.

(** The name the next iterator gives its index. *)
Definition next_index_name (st : state) : string :=
  ("tempIndex" ++ uuid_str (uuid_seed st))%string.

(** A row occurs in some slice of the list. *)
Definition yielded (dfs : list slice) (r : row) : Prop :=
  exists df, In df dfs /\ In r (srows df).

(** No row occurs in two slices at different positions. *)
Definition pairwise_disjoint (dfs : list slice) : Prop :=
  forall j1 j2 df1 df2 r,
    nth_error dfs j1 = Some df1 -> nth_error dfs j2 = Some df2 -> j1 <> j2 ->
    In r (srows df1) -> In r (srows df2) -> False.

(** The state a successful statement leaves: the working store replaced,
    and the file too when no transaction is open. *)
Definition after_write (h : handle) (s' : store) (st : state) : state :=
  mkState (if in_txn h then disk st else s')
          (Some (mkHandle s' (in_txn h) true (functions h) (views h)))
          (uuid_seed st).

(** The state after one [uuid.uuid4()] draw. *)
Definition bump (st : state) : state :=
  mkState (disk st) (conn st) (N.succ (uuid_seed st)).

Definition add_index (i : index) (s : store) : store :=
  mkStore (tables s) (i :: indexes s) (macros s).

(** The slice of one group: the rows whose key cells equal the key. *)
Definition group_slice (t : table) (ix : list nat) (key : list value) : slice :=
  mkSlice (header t) (filter (fun r => is_true (key_matches ix key r)) (rows t)).

(** The domain the group iterator enumerates. *)
Definition group_keys (t : table) (ix : list nat) : list (list value) :=
  sort_by key_leb (distinct (map (key_of ix) (rows t))).

(** A table with a [NULL] in a grouping column: [emp] by [mgr]. *)
Definition emp_by_mgr : list slice :=
  fst (fst (drain iter_group 8 (GroupStart "emp" (ColList ["mgr"]))
                  (in_session emp_store))).

Definition king : row :=
  emp_row 8 7839 "KING" "PRESIDENT" VNull 20061117 5000 VNull 10.

(** The views registered on the connection. *)
Definition views_of (st : state) : list (string * slice) :=
  match conn st with
  | Some h => views h
  | None => []
  end.

(** The name [push] gives its transient view. *)
Definition next_view_name (st : state) : string :=
  ("tempDFView" ++ uuid_str (uuid_seed st))%string.

(** [table_name.lower() in tables], over the answer of [SHOW TABLES]. *)
Definition table_listed (table_name : string) (s : store) : bool :=
  existsb (String.eqb (lower table_name)) (map lower (map fst (tables s))).

(** ** The JSON codec *)

(** Modelled from the spec: [json.dumps] and [json.loads] of the Python
    library, with their default settings, on the values that cross the
    SQL-function boundary: [None], booleans, integers, texts and lists of
    these.  A text is a sequence of code points below 256.  Floats and
    objects are beyond the fragment: the decoder answers [Beyond] for a
    text that holds one, and for a [\u] escape above 255. *)
Inductive pyval : Type :=
| PNone
| PBool (b : bool)
| PInt (z : Z)
| PStr (s : string)
| PList (l : list pyval).

Definition is_primitive (v : pyval) : bool :=
  match v with
  | PList _ => false
  | _ => true
  end.

(** *** Encoding *)

Definition dquote : ascii := ascii_of_N 34.

Definition hex_digit (n : N) : ascii :=
  match n with
  | 0 => "0" | 1 => "1" | 2 => "2" | 3 => "3" | 4 => "4" | 5 => "5"
  | 6 => "6" | 7 => "7" | 8 => "8" | 9 => "9" | 10 => "a" | 11 => "b"
  | 12 => "c" | 13 => "d" | 14 => "e" | _ => "f"
  end%N%char.

(** One character of a text under [ensure_ascii]: the quote and the
    backslash are escaped, the usual control characters get their short
    form, everything else outside [' '..'~'] becomes [\u00xx]. *)
Definition encode_char (c : ascii) : string :=
  let n := N_of_ascii c in
  if Ascii.eqb c dquote then String "\" (String dquote EmptyString)
  else if Ascii.eqb c "\" then String "\" (String "\" EmptyString)
  else if (n =? 10)%N then String "\" (String "n" EmptyString)
  else if (n =? 13)%N then String "\" (String "r" EmptyString)
  else if (n =? 9)%N then String "\" (String "t" EmptyString)
  else if (n =? 12)%N then String "\" (String "f" EmptyString)
  else if (n =? 8)%N then String "\" (String "b" EmptyString)
  else if ((n <? 32) || (126 <? n))%N
  then String "\" (String "u" (String "0" (String "0"
         (String (hex_digit (n / 16)) (String (hex_digit (n mod 16)) EmptyString)))))
  else String c EmptyString.

Fixpoint encode_chars (s : string) : string :=
  match s with
  | EmptyString => EmptyString
  | String c s' => (encode_char c ++ encode_chars s')%string
  end.

Definition encode_str (s : string) : string :=
  String dquote (encode_chars s ++ String dquote EmptyString)%string.

(** [int.__repr__] *)
Definition encode_int (z : Z) : string :=
  match z with
  | Z0 => "0"
  | Zpos p => NilEmpty.string_of_uint (Pos.to_uint p)
  | Zneg p => String "-" (NilEmpty.string_of_uint (Pos.to_uint p))
  end.

(** [json.dumps] *)
Fixpoint dumps (v : pyval) : string :=
  match v with
  | PNone => "null"
  | PBool true => "true"
  | PBool false => "false"
  | PInt z => encode_int z
  | PStr s => encode_str s
  | PList l =>
      let fix items (l : list pyval) : string :=
        match l with
        | [] => EmptyString
        | x :: l' =>
            match l' with
            | [] => dumps x
            | _ :: _ => (dumps x ++ ", " ++ items l')%string
            end
        end in
      String "[" (items l ++ "]")%string
  end.

(** *** Decoding *)

Inductive parsed (A : Type) : Type :=
| Parsed (a : A) (rest : string)
| Malformed
| Beyond.

Arguments Parsed {A} a rest.
Arguments Malformed {A}.
Arguments Beyond {A}.

Definition parsed_map {A B} (f : A -> B) (p : parsed A) : parsed B :=
  match p with
  | Parsed a rest => Parsed (f a) rest
  | Malformed => Malformed
  | Beyond => Beyond
  end.

Definition is_ws (c : ascii) : bool :=
  let n := N_of_ascii c in
  ((n =? 32) || (n =? 9) || (n =? 10) || (n =? 13))%N.

Fixpoint skip_ws (s : string) : string :=
  match s with
  | String c s' => if is_ws c then skip_ws s' else s
  | EmptyString => EmptyString
  end.

Definition hex_value (c : ascii) : option N :=
  let n := N_of_ascii c in
  if ((48 <=? n) && (n <=? 57))%N then Some (n - 48)%N
  else if ((97 <=? n) && (n <=? 102))%N then Some (n - 87)%N
  else if ((65 <=? n) && (n <=? 70))%N then Some (n - 55)%N
  else None.

Definition hex4 (a b c d : ascii) : option N :=
  match hex_value a, hex_value b, hex_value c, hex_value d with
  | Some x, Some y, Some z, Some w => Some (((x * 16 + y) * 16 + z) * 16 + w)%N
  | _, _, _, _ => None
  end.

(** The character a one-letter escape stands for. *)
Definition unescape (e : ascii) : option ascii :=
  if Ascii.eqb e dquote then Some dquote
  else if Ascii.eqb e "\" then Some "\"%char
  else if Ascii.eqb e "/" then Some "/"%char
  else if Ascii.eqb e "b" then Some (ascii_of_N 8)
  else if Ascii.eqb e "f" then Some (ascii_of_N 12)
  else if Ascii.eqb e "n" then Some (ascii_of_N 10)
  else if Ascii.eqb e "r" then Some (ascii_of_N 13)
  else if Ascii.eqb e "t" then Some (ascii_of_N 9)
  else None.

Definition parsed_cons (c : ascii) (p : parsed string) : parsed string :=
  parsed_map (String c) p.

(** [scanstring], strict: the text after an opening quote up to the
    closing one. *)
Fixpoint scanstring (s : string) : parsed string :=
  match s with
  | EmptyString => Malformed
  | String c s' =>
      if Ascii.eqb c dquote then Parsed EmptyString s'
      else if Ascii.eqb c "\" then
        match s' with
        | EmptyString => Malformed
        | String e s'' =>
            if Ascii.eqb e "u" then
              match s'' with
              | String h1 (String h2 (String h3 (String h4 s5))) =>
                  match hex4 h1 h2 h3 h4 with
                  | Some n => if (n <? 256)%N
                              then parsed_cons (ascii_of_N n) (scanstring s5)
                              else Beyond
                  | None => Malformed
                  end
              | _ => Malformed
              end
            else
              match unescape e with
              | Some c' => parsed_cons c' (scanstring s'')
              | None => Malformed
              end
        end
      else if (N_of_ascii c <? 32)%N then Malformed
      else parsed_cons c (scanstring s')
  end.

Definition digit (c : ascii) : option (uint -> uint) :=
  match c with
  | "0" => Some D0 | "1" => Some D1 | "2" => Some D2 | "3" => Some D3
  | "4" => Some D4 | "5" => Some D5 | "6" => Some D6 | "7" => Some D7
  | "8" => Some D8 | "9" => Some D9
  | _ => None
  end%char.

Fixpoint scan_digits (s : string) : uint * string :=
  match s with
  | EmptyString => (Nil, EmptyString)
  | String c s' =>
      match digit c with
      | Some d => let '(u, rest) := scan_digits s' in (d u, rest)
      | None => (Nil, s)
      end
  end.

Definition head_is (p : ascii -> bool) (s : string) : bool :=
  match s with
  | String c _ => p c
  | EmptyString => false
  end.

Definition is_digit (c : ascii) : bool :=
  match digit c with Some _ => true | None => false end.

(** The integer part of a number: [0], or a digit from 1 to 9 followed by
    digits. *)
Definition scan_nat (s : string) : option (uint * string) :=
  match s with
  | String c s' =>
      if Ascii.eqb c "0" then Some (D0 Nil, s')
      else match digit c with
           | Some d => let '(u, rest) := scan_digits s' in Some (d u, rest)
           | None => None
           end
  | EmptyString => None
  end.

(** A fraction or an exponent follows: the number is a float. *)
Definition float_follows (s : string) : bool :=
  match s with
  | String c s' =>
      if Ascii.eqb c "." then head_is is_digit s'
      else if Ascii.eqb c "e" || Ascii.eqb c "E" then
        match s' with
        | String g s'' =>
            if Ascii.eqb g "+" || Ascii.eqb g "-" then head_is is_digit s''
            else is_digit g
        | EmptyString => false
        end
      else false
  | EmptyString => false
  end.

Definition scan_number (s : string) : parsed pyval :=
  let '(negative, body) :=
    match s with
    | String c s' => if Ascii.eqb c "-" then (true, s') else (false, s)
    | EmptyString => (false, s)
    end in
  match scan_nat body with
  | None => Malformed
  | Some (u, rest) =>
      if float_follows rest then Beyond
      else Parsed (PInt (if negative then - Z.of_uint u else Z.of_uint u)) rest
  end.

(** [s] starts with [pre]: what follows it. *)
Fixpoint strip_prefix (pre s : string) : option string :=
  match pre, s with
  | EmptyString, _ => Some s
  | String a pre', String b s' =>
      if Ascii.eqb a b then strip_prefix pre' s' else None
  | String _ _, EmptyString => None
  end.

Definition literal {A} (word : string) (v : parsed A) (otherwise : parsed A)
  (s : string) : parsed A :=
  match strip_prefix word s with
  | Some rest => match v with
                 | Parsed a _ => Parsed a rest
                 | other => other
                 end
  | None => otherwise
  end.

(** [scan_once] and [JSONArray]: a value at the head of the text, and the
    elements of an array after its opening bracket.  The fuel bounds the
    nesting and the number of elements. *)
Fixpoint scan_once (fuel : nat) (s : string) : parsed pyval :=
  match fuel with
  | O => Malformed
  | S fuel' =>
      match s with
      | EmptyString => Malformed
      | String c s' =>
          if Ascii.eqb c dquote then parsed_map PStr (scanstring s')
          else if Ascii.eqb c "{" then Beyond
          else if Ascii.eqb c "[" then
            let s1 := skip_ws s' in
            match s1 with
            | String c1 s2 =>
                if Ascii.eqb c1 "]" then Parsed (PList []) s2
                else parsed_map PList (scan_elements fuel' s1)
            | EmptyString => Malformed
            end
          else if Ascii.eqb c "n" then
            literal "null" (Parsed PNone EmptyString) Malformed s
          else if Ascii.eqb c "t" then
            literal "true" (Parsed (PBool true) EmptyString) Malformed s
          else if Ascii.eqb c "f" then
            literal "false" (Parsed (PBool false) EmptyString) Malformed s
          else if Ascii.eqb c "N" then literal "NaN" Beyond Malformed s
          else if Ascii.eqb c "I" then literal "Infinity" Beyond Malformed s
          else literal "-Infinity" Beyond (scan_number s) s
      end
  end
with scan_elements (fuel : nat) (s : string) : parsed (list pyval) :=
  match fuel with
  | O => Malformed
  | S fuel' =>
      match scan_once fuel' s with
      | Parsed v rest =>
          match skip_ws rest with
          | String c rest' =>
              if Ascii.eqb c "]" then Parsed [v] rest'
              else if Ascii.eqb c "," then
                parsed_map (cons v) (scan_elements fuel' (skip_ws rest'))
              else Malformed
          | EmptyString => Malformed
          end
      | Malformed => Malformed
      | Beyond => Beyond
      end
  end.

(** What [json.loads] makes of a text. *)
Inductive decoded : Type :=
| Decoded (v : pyval)
| JSONDecodeError
| OutOfFragment.

(** [json.loads]: leading blanks, one value, trailing blanks, the end. *)
Definition loads (s : string) : decoded :=
  match scan_once (S (String.length s)) (skip_ws s) with
  | Parsed v rest =>
      match skip_ws rest with
      | EmptyString => Decoded v
      | String _ _ => JSONDecodeError
      end
  | Malformed => JSONDecodeError
  | Beyond => OutOfFragment
  end.

(** ** [json_wrap] *)

(** The helper [deserialize] of the wrapper: [None] when the decoded
    object is outside the fragment. *)
Definition deserialize (arg : pyval) : option pyval :=
  match arg with
  | PStr s =>
      match loads s with
      | Decoded v => Some v
      | JSONDecodeError => Some arg
      | OutOfFragment => None
      end
  | _ => Some arg
  end.

Fixpoint deserialize_all (args : list pyval) : option (list pyval) :=
  match args with
  | [] => Some []
  | a :: args' =>
      match deserialize a, deserialize_all args' with
      | Some v, Some vs => Some (v :: vs)
      | _, _ => None
      end
  end.

(** The [wrapper] that [json_wrap(func)] returns, applied to [args], for
    a [func] that returns. *)
Definition json_wrap (func : list pyval -> pyval) (args : list pyval) : option pyval :=
  match deserialize_all args with
  | None => None
  | Some deserialized_args =>
      let result := func deserialized_args in
      Some (match result with
            | PList _ => PStr (dumps result)
            | _ => result
            end)
  end.

(** A function that hands its first argument back. *)
Definition an_echo (args : list pyval) : pyval := hd PNone args.

(** The elements of a list as [json.dumps] writes them between the
    brackets. *)
Fixpoint dumps_items (l : list pyval) : string :=
  match l with
  | [] => EmptyString
  | x :: l' =>
      match l' with
      | [] => dumps x
      | _ :: _ => (dumps x ++ ", " ++ dumps_items l')%string
      end
  end.

(** The character ends a number and an element: a comma or a closing
    bracket. *)
Definition is_delimiter (c : ascii) : bool :=
  Ascii.eqb c "," || Ascii.eqb c "]".

(** No row of the table has a [NULL] in the grouping columns. *)
Definition null_free (ix : list nat) (t : table) : Prop :=
  forall r, In r (rows t) -> Forall (fun v => v <> VNull) (key_of ix r).

(** The order of the keys, as a relation. *)
Definition key_before (k1 k2 : list value) : Prop := key_leb k1 k2 = true.

(** ** Vocabulary of the further properties *)

(** The reference value of a row as a number (0 when it is no integer). *)
Definition ref_key (i : nat) (r : row) : Z :=
  match cell i r with
  | VInt z => z
  | _ => 0
  end.

(** Column [i] holds integers and [NULL]s only. *)
Definition int_column (i : nat) (t : table) : Prop :=
  Forall (fun r => cell i r = VNull \/ exists z, cell i r = VInt z) (rows t).

(** The slice of one chunk and the slices of [n] chunks of [k] row
    identifiers from [cs] on. *)
Definition chunk_slice (t : table) (lo hi : Z) : slice :=
  mkSlice (header t) (filter (between rowid lo hi) (rows_by_rowid t)).

Fixpoint chunk_slices (t : table) (k : Z) (n : nat) (cs : Z) : list slice :=
  match n with
  | O => []
  | Datatypes.S n' => chunk_slice t cs (cs + k) :: chunk_slices t k n' (cs + k)
  end.


(** The size of a value and of a list of elements: a bound on the fuel
    the decoder needs to read them back. *)
Fixpoint vsize (v : pyval) : nat :=
  match v with
  | PList l => S (fold_right (fun x n => S (vsize x + n)) O l)
  | _ => 1
  end.

Definition esize (l : list pyval) : nat :=
  fold_right (fun x n => S (vsize x + n)) O l.

(** What may follow a number: no digit, no fraction, no exponent. *)
Definition ends_value (rest : string) : Prop :=
  head_is is_digit rest = false /\ float_follows rest = false.

(** The characters a JSON value can begin with. *)
Definition starts_json (c : ascii) : bool :=
  Ascii.eqb c dquote || Ascii.eqb c "{" || Ascii.eqb c "[" || Ascii.eqb c "n" ||
  Ascii.eqb c "t" || Ascii.eqb c "f" || Ascii.eqb c "N" || Ascii.eqb c "I" ||
  Ascii.eqb c "-" || is_digit c.

Definition is_text (v : pyval) : bool :=
  match v with
  | PStr _ => true
  | _ => false
  end.

(** What the wrapper returns for a result of the wrapped function. *)
Definition wrap_result (result : pyval) : pyval :=
  match result with
  | PList _ => PStr (dumps result)
  | _ => result
  end.

(** A method leaves the tables of the working store as they are,
    whatever it returns. *)
Definition keeps_tables {A} (m : M A) : Prop :=
  forall st, tables (work_of (snd (m st))) = tables (work_of st).

(** The state a drained generator ends in. *)
Definition final_state (r : list slice * ending * state) : state := snd r.

(** * Theorems *)

(** ** The session *)

Lemma enter_live (st : state) :
  exists st1, __enter__ st = Ok st1 /\ live st1 /\
              disk st1 = install_js (disk st) /\
              work_of st1 = install_js (disk st) /\
              uuid_seed st1 = uuid_seed st.
Proof.
  unfold __enter__, duckdb_connect, run_write, conn_begin, the_conn, set_conn.
  cbn. eexists. split; [reflexivity|].
  unfold live, work_of. cbn. split; [|repeat split].
  eexists. split; [reflexivity|]. split; reflexivity.
Qed.

Lemma write_live (w : store -> store) (st : state) :
  live st ->
  exists st', run_write (fun s => Ok (w s)) st = Ok st' /\ live st' /\
              disk st' = disk st /\ work_of st' = w (work_of st).
Proof.
  intros (h & Hc & Ho & Ht).
  unfold run_write, the_conn, work_of. rewrite Hc, Ho. cbn. rewrite Ht.
  eexists. split; [reflexivity|]. cbn. split; [|split; reflexivity].
  eexists. split; [reflexivity|]. split; reflexivity.
Qed.

Lemma regfn_live (f : string) (st : state) :
  live st ->
  exists st', regfn f st = Ok st' /\ live st' /\
              disk st' = work_of st /\ work_of st' = work_of st.
Proof.
  intros (h & Hc & Ho & Ht).
  unfold regfn, conn_commit, conn_create_function, the_conn, work_of.
  rewrite Hc, Ho. cbn. rewrite Ht. cbn.
  eexists. split; [reflexivity|]. cbn. split; [|split; reflexivity].
  eexists. split; [reflexivity|]. split; reflexivity.
Qed.



(** A body that raises nowhere runs to its end inside the transaction. *)
Lemma run_body_no_raise (body : list action) :
  forall st, live st ->
  forallb (fun a => negb (is_raise a)) body = true ->
  exists st', run_body body st = (None, st') /\ live st' /\
              work_of st' = apply_writes body (work_of st).
Proof.
  induction body as [|a body IH]; intros st Hl Hb.
  - exists st. repeat split; assumption.
  - cbn in Hb. apply andb_true_iff in Hb as [Ha Hb].
    destruct a as [w|f|e]; cbn in Ha; try discriminate.
    + destruct (write_live w Hl) as (st1 & E1 & L1 & _ & W1).
      destruct (IH st1 L1 Hb) as (st' & E' & L' & W').
      exists st'. cbn. rewrite E1. repeat split; try assumption.
      rewrite W', W1. reflexivity.
    + destruct (regfn_live f Hl) as (st1 & E1 & L1 & _ & W1).
      destruct (IH st1 L1 Hb) as (st' & E' & L' & W').
      exists st'. cbn. rewrite E1. repeat split; try assumption.
      rewrite W', W1. reflexivity.
Qed.






(** C7. Leaving the block by an exception rolls back and re-raises without
    closing: the connection is still open afterwards, while a normal exit
    commits and closes it. *)
Theorem exit_on_exception_keeps_connection_open :
  let failed := with_session [AWrite (add_table "a"); ARaise (UserError 1)] st0 in
  let passed := with_session [AWrite (add_table "a")] st0 in
  fst failed = Some (UserError 1) /\
  option_map is_open (conn (snd failed)) = Some true /\
  fst passed = None /\
  option_map is_open (conn (snd passed)) = Some false.
Proof. cbv. repeat split. Qed.

(** ** Sorting *)


Section SortBy.
Variable A : Type.
Variable leb : A -> A -> bool.

Lemma insert_by_perm (x : A) (l : list A) :
  Permutation (insert_by leb x l) (x :: l).
Proof.
  induction l as [|y l IH]; cbn.
  - apply Permutation_refl.
  - destruct (leb x y).
    + apply Permutation_refl.
    + eapply perm_trans; [apply perm_skip, IH|apply perm_swap].
Qed.

Lemma sort_by_perm (l : list A) : Permutation (sort_by leb l) l.
Proof.
  induction l as [|x l IH]; cbn.
  - apply perm_nil.
  - eapply perm_trans; [apply insert_by_perm|apply perm_skip, IH].
Qed.

Lemma sort_by_In (l : list A) (x : A) : In x (sort_by leb l) <-> In x l.
Proof.
  split; apply Permutation_in;
    [apply sort_by_perm|apply Permutation_sym, sort_by_perm].
Qed.
End SortBy.

Section SortByKey.
Variable A : Type.
Variable key : A -> Z.

Lemma by_key_cases (x y : A) :
  (by_key key x y = true /\ key x <= key y) \/ (by_key key x y = false /\ key y < key x).
Proof. unfold by_key. destruct (Z.leb_spec (key x) (key y)); auto. Qed.

Lemma insert_by_sorted (x : A) (l : list A) :
  StronglySorted (key_le key) l -> StronglySorted (key_le key) (insert_by (by_key key) x l).
Proof.
  induction 1 as [|y l Hs IH Hall]; cbn.
  - constructor; constructor.
  - destruct (by_key_cases x y) as [[-> Hxy]|[-> Hxy]].
    + constructor; [constructor; assumption|].
      constructor; [exact Hxy|].
      eapply Forall_impl; [|exact Hall].
      unfold key_le. intros; lia.
    + constructor; [exact IH|].
      eapply Permutation_Forall; [apply Permutation_sym, insert_by_perm|].
      constructor; [unfold key_le; lia|exact Hall].
Qed.

Lemma sort_by_sorted (l : list A) : StronglySorted (key_le key) (sort_by (by_key key) l).
Proof.
  induction l as [|x l IH]; cbn.
  - constructor.
  - apply insert_by_sorted, IH.
Qed.

(** The sort is stable, so on a sorted list filtering and inserting
    commute. *)
Lemma filter_insert_by (p : A -> bool) (x : A) (l : list A) :
  StronglySorted (key_le key) l ->
  filter p (insert_by (by_key key) x l) =
  if p x then insert_by (by_key key) x (filter p l) else filter p l.
Proof.
  induction 1 as [|y l Hs IH Hall]; cbn.
  - destruct (p x); reflexivity.
  - destruct (by_key_cases x y) as [[Exy Hxy]|[Exy Hxy]]; rewrite Exy; cbn.
    + destruct (p x) eqn:Px; [|reflexivity].
      destruct (p y) eqn:Py.
      * cbn. rewrite Exy. reflexivity.
      * f_equal.
        assert (Hf : Forall (fun z => key x <= key z) (filter p l)).
        { apply Forall_forall. intros z Hz. apply filter_In in Hz as [Hz _].
          rewrite Forall_forall in Hall. specialize (Hall z Hz).
          unfold key_le in Hall. lia. }
        destruct (filter p l) as [|z l']; [reflexivity|].
        cbn. inversion Hf; subst.
        destruct (by_key_cases x z) as [[-> _]|[_ Hxz]]; [reflexivity|lia].
    + rewrite IH. destruct (p y) eqn:Py; destruct (p x) eqn:Px; cbn;
        try reflexivity.
      rewrite Exy. reflexivity.
Qed.

Lemma filter_sort_by (p : A -> bool) (l : list A) :
  filter p (sort_by (by_key key) l) = sort_by (by_key key) (filter p l).
Proof.
  induction l as [|x l IH]; cbn; [reflexivity|].
  rewrite filter_insert_by by apply sort_by_sorted.
  rewrite IH. destruct (p x); reflexivity.
Qed.

Lemma between_iff (lo hi : Z) (x : A) :
  between key lo hi x = true <-> lo <= key x < hi.
Proof. unfold between. rewrite andb_true_iff, Z.leb_le, Z.ltb_lt. tauto. Qed.



End SortByKey.

(** ** Running generators *)

(** A generator that has ended keeps its result under any larger fuel. *)
Lemma drain_more_fuel {G} (next : G -> gen_step G) (n : nat) :
  forall m g st dfs e st',
  drain next n g st = (dfs, e, st') -> e <> OutOfFuel -> (n <= m)%nat ->
  drain next m g st = (dfs, e, st').
Proof.
  induction n as [|n IH]; intros m g st dfs e st' Hd He Hm.
  - cbn in Hd. inversion Hd; subst. congruence.
  - destruct m as [|m]; [lia|]. cbn in Hd |- *.
    destruct (next g st) as [[[[df g']|]|e0] st1]; try exact Hd.
    destruct (drain next n g' st1) as [[dfs1 e1] st2] eqn:E.
    inversion Hd; subst.
    rewrite (IH m g' st1 dfs1 e st' E He) by lia. reflexivity.
Qed.

Lemma in_window_int (z lo hi : Z) :
  in_window (VInt z) (VInt lo) (VInt hi) = (lo <=? z) && (z <? hi).
Proof.
  unfold in_window, sql_ge, sql_lt, sql_and, is_true.
  destruct (lo <=? z), (z <? hi); reflexivity.
Qed.

(** ** [iter_chunk] *)

Lemma min_max_ints (zs : list Z) :
  zs <> [] ->
  exists lo hi,
    fold_right v_min VNull (map VInt zs) = VInt lo /\
    fold_right v_max VNull (map VInt zs) = VInt hi /\
    Forall (fun z => lo <= z <= hi) zs /\ lo <= hi.
Proof.
  induction zs as [|z zs IH]; [congruence|]. intros _.
  destruct zs as [|z' zs].
  - exists z, z. cbn. repeat split; try lia. constructor; [lia|constructor].
  - destruct IH as (lo & hi & Hlo & Hhi & Hall & Hle); [congruence|].
    cbn [map fold_right] in *. rewrite Hlo, Hhi. cbn.
    destruct (Z.leb_spec z lo), (Z.leb_spec z hi); try (exfalso; lia).
    + exists z, hi. repeat split; try lia. constructor; [lia|].
      eapply Forall_impl; [|exact Hall]. cbn. intros; lia.
    + exists lo, hi. repeat split; try lia. constructor; [lia|exact Hall].
    + exists lo, z. repeat split; try lia. constructor; [lia|].
      eapply Forall_impl; [|exact Hall]. cbn. intros; lia.
Qed.

Lemma select_rowid_range_sees (st : state) (tn : string) (t : table) (lo hi : Z) :
  sees st tn t ->
  query (sql_select_rowid_range tn (VInt lo) (VInt hi)) st =
  (Ok (mkSlice (header t) (filter (between rowid lo hi) (rows_by_rowid t))), st).
Proof.
  intros (h & Hc & Ht). unfold query, sql_select_rowid_range, get_table.
  rewrite Hc, Ht. cbn. unfold rows_by_rowid, by_rowid.
  rewrite filter_sort_by. do 3 f_equal.
  change (fun r1 r2 : row => rowid r1 <=? rowid r2) with (by_key rowid).
  f_equal. apply filter_ext. intro r. apply in_window_int.
Qed.

Lemma chunk_while_yield (st : state) (tn : string) (t : table) (k e cs ce : Z) :
  sees st tn t -> cs <= e ->
  chunk_while tn (VInt k) (VInt e) (VInt cs) (VInt ce) st =
  (Ok (Some (mkSlice (header t) (filter (between rowid cs ce) (rows_by_rowid t)),
             ChunkResume tn (VInt k) (VInt e) (VInt cs))), st).
Proof.
  intros Hs Hle. unfold chunk_while, bindM, lift, py_le.
  destruct (Z.leb_spec cs e); [|lia].
  rewrite (select_rowid_range_sees _ _ Hs). reflexivity.
Qed.

Lemma chunk_while_stop (st : state) (tn : string) (k e cs ce : Z) :
  e < cs ->
  chunk_while tn (VInt k) (VInt e) (VInt cs) (VInt ce) st = (Ok None, st).
Proof.
  intros Hlt. unfold chunk_while, bindM, lift, py_le.
  destruct (Z.leb_spec cs e); [lia|]. reflexivity.
Qed.


Lemma min_max_rowid_sees (st : state) (tn : string) (t : table) :
  sees st tn t ->
  query (sql_min_max_rowid tn) st =
  (Ok (fold_right v_min VNull (map VInt (map rowid (rows t))),
       fold_right v_max VNull (map VInt (map rowid (rows t)))), st).
Proof.
  intros (h & Hc & Ht). unfold query, sql_min_max_rowid, get_table.
  rewrite Hc, Ht. cbn. rewrite map_map. reflexivity.
Qed.




(** With a chunk size that is not positive the loop never ends: whatever
    the fuel, the iterator is still yielding. *)
Lemma chunk_nonpositive_diverges (st : state) (tn : string) (t : table) (k e : Z) :
  sees st tn t -> k <= 0 ->
  forall (fuel : nat) (cs : Z), cs <= e ->
  snd (fst (drain iter_chunk fuel (ChunkResume tn (VInt k) (VInt e) (VInt cs)) st))
  = OutOfFuel.
Proof.
  intros Hs Hk. induction fuel as [|fuel IH]; intros cs Hcs; [reflexivity|].
  cbn [drain iter_chunk]. unfold bindM at 1 2, lift, py_add.
  rewrite (@chunk_while_yield st tn t k e (cs + k) (cs + k + k) Hs) by lia.
  specialize (IH (cs + k) ltac:(lia)).
  destruct (drain iter_chunk fuel _ st) as [[dfs en] s']. exact IH.
Qed.

(** ** Statements against a connected session *)

Lemma execute_ok (st : state) (h : handle) (f : store -> result store) (s' : store) :
  the_conn st = Ok h -> f (work h) = Ok s' ->
  execute f st = (Ok tt, after_write h s' st).
Proof.
  intros Hc Hf. unfold execute, run_write. rewrite Hc. cbn. rewrite Hf. reflexivity.
Qed.

Lemma the_conn_after_write (h : handle) (s' : store) (st : state) :
  the_conn (after_write h s' st) =
  Ok (mkHandle s' (in_txn h) true (functions h) (views h)).
Proof. reflexivity. Qed.

Lemma the_conn_bump (st : state) : the_conn (bump st) = the_conn st.
Proof. reflexivity. Qed.

Lemma name_eqb_refl (n : string) : name_eqb n n = true.
Proof. unfold name_eqb. apply String.eqb_refl. Qed.

Lemma store_eta (s : store) : mkStore (tables s) (indexes s) (macros s) = s.
Proof. destruct s; reflexivity. Qed.

Lemma filter_all {A} (p : A -> bool) (l : list A) :
  (forall x, In x l -> p x = true) -> filter p l = l.
Proof.
  induction l as [|x l IH]; intro H; cbn; [reflexivity|].
  rewrite (H x (or_introl eq_refl)). f_equal. apply IH. intros y Hy. apply H. now right.
Qed.

Lemma get_cols_one (t : table) (c : string) (i : nat) :
  col_index c (header t) = Some i -> get_cols [c] t = Ok [i].
Proof. intro H. unfold get_cols. cbn. rewrite H. reflexivity. Qed.

(** Creating the index succeeds when its name is free, and changes nothing
    but the list of indexes. *)
Lemma create_index_ok (st : state) (h : handle) (tn : string) (t : table)
  (cols : list string) (ix : list nat) (name : string) :
  the_conn st = Ok h -> find_table tn (tables (work h)) = Some t ->
  get_cols cols t = Ok ix -> index_free name (work h) ->
  execute (sql_create_index name tn cols) st =
  (Ok tt, after_write h (add_index (mkIndex name tn cols) (work h)) st).
Proof.
  intros Hc Ht Hg Hfree. apply execute_ok; [exact Hc|].
  unfold sql_create_index, get_table. rewrite Ht. cbn. rewrite Hg. cbn.
  unfold index_free in Hfree. rewrite Hfree. reflexivity.
Qed.

(** Dropping it again gives the store back. *)
Lemma drop_index_ok (st : state) (h : handle) (s : store) (i : index) :
  the_conn st = Ok h -> work h = add_index i s -> index_free (index_name i) s ->
  execute (sql_drop_index (index_name i)) st = (Ok tt, after_write h s st).
Proof.
  intros Hc Hw Hfree. apply execute_ok; [exact Hc|].
  unfold sql_drop_index. rewrite Hw. cbn. rewrite name_eqb_refl. cbn.
  rewrite filter_all; [rewrite store_eta; reflexivity|].
  intros j Hj. unfold index_free in Hfree.
  destruct (name_eqb (index_name i) (index_name j)) eqn:E; [|reflexivity].
  exfalso. apply Bool.not_true_iff_false in Hfree. apply Hfree.
  apply existsb_exists. exists j. split; assumption.
Qed.

(** ** [iter_window] *)

Lemma in_window_ref (i : nat) (lo hi : Z) (r : row) :
  in_window (cell i r) (VInt lo) (VInt hi) = true <-> ref_in i lo hi r.
Proof.
  unfold ref_in. split.
  - destruct (cell i r) as [|z|s] eqn:E; try discriminate.
    rewrite in_window_int. intro H. apply andb_true_iff in H as [H1 H2].
    exists z. split; [reflexivity|]. apply Z.leb_le in H1. apply Z.ltb_lt in H2. lia.
  - intros (z & -> & Hz). rewrite in_window_int.
    apply andb_true_iff. split; [apply Z.leb_le|apply Z.ltb_lt]; lia.
Qed.

Lemma In_window_slice (t : table) (i : nat) (lo hi : Z) (r : row) :
  In r (srows (window_slice t i lo hi)) <-> In r (rows t) /\ ref_in i lo hi r.
Proof.
  unfold window_slice. cbn. rewrite sort_by_In, filter_In, in_window_ref. tauto.
Qed.

Lemma select_range_sees (st : state) (tn refcol : string) (t : table) (i : nat)
  (lo hi : Z) :
  sees st tn t -> col_index refcol (header t) = Some i ->
  query (sql_select_range tn refcol (VInt lo) (VInt hi)) st =
  (Ok (window_slice t i lo hi), st).
Proof.
  intros (h & Hc & Ht) Hi. unfold query, sql_select_range, get_table.
  rewrite Hc, Ht. cbn [bind]. rewrite (get_cols_one _ _ Hi). reflexivity.
Qed.

Lemma min_max_sees (st : state) (tn refcol : string) (t : table) (i : nat) :
  sees st tn t -> col_index refcol (header t) = Some i ->
  query (sql_min_max tn refcol) st = (Ok (column_bounds i t), st).
Proof.
  intros (h & Hc & Ht) Hi. unfold query, sql_min_max, get_table.
  rewrite Hc, Ht. cbn [bind]. rewrite (get_cols_one _ _ Hi). reflexivity.
Qed.

Lemma window_while_yield (st : state) (idx tn refcol : string) (t : table)
  (i : nat) (S T b cs ce : Z) :
  sees st tn t -> col_index refcol (header t) = Some i -> cs <= b ->
  window_while idx tn refcol (VInt S) (VInt T) (VInt b) (VInt cs) (VInt ce) st =
  (Ok (Some (window_slice t i cs ce,
             WindowResume idx tn refcol (VInt S) (VInt T) (VInt b) (VInt cs))), st).
Proof.
  intros Hs Hi Hle. unfold window_while, bindM, lift, py_le.
  destruct (Z.leb_spec cs b); [|lia].
  rewrite (select_range_sees _ _ _ Hs Hi). reflexivity.
Qed.

Lemma window_while_stop (st st' : state) (idx tn refcol : string)
  (S T b cs ce : Z) :
  execute (sql_drop_index idx) st = (Ok tt, st') -> b < cs ->
  window_while idx tn refcol (VInt S) (VInt T) (VInt b) (VInt cs) (VInt ce) st =
  (Ok None, st').
Proof.
  intros Hd Hlt. unfold window_while, bindM, lift, py_le.
  destruct (Z.leb_spec cs b); [lia|]. rewrite Hd. reflexivity.
Qed.

(** Resuming after the tick that started at [cs], with [m] ticks to go. *)
Lemma window_resume (st st' : state) (idx tn refcol : string) (t : table)
  (i : nat) (S T b : Z) :
  sees st tn t -> col_index refcol (header t) = Some i ->
  execute (sql_drop_index idx) st = (Ok tt, st') -> 0 < T ->
  forall (m : nat) (cs : Z),
  cs + Z.of_nat m * T <= b < cs + (Z.of_nat m + 1) * T ->
  drain iter_window (Datatypes.S m)
        (WindowResume idx tn refcol (VInt S) (VInt T) (VInt b) (VInt cs)) st =
  (window_slices t i S T m (cs + T), Exhausted, st').
Proof.
  intros Hs Hi Hd HT. induction m as [|m IH]; intros cs Hm.
  - cbn [drain iter_window]. unfold bindM at 1 2, lift, py_add.
    rewrite (@window_while_stop st st' idx tn refcol S T b (cs + T) (cs + T + S) Hd) by lia.
    reflexivity.
  - specialize (IH (cs + T) ltac:(lia)).
    change (drain iter_window (Datatypes.S (Datatypes.S m))) with
      (fun g s => match iter_window g s with
         | (Ok (Some (df, g')), st') =>
             let '(dfs, e, st'') := drain iter_window (Datatypes.S m) g' st' in
             (df :: dfs, e, st'')
         | (Ok None, st') => ([], Exhausted, st')
         | (Raised e, st') => ([], Failed e, st')
         end).
    cbn beta. cbn [iter_window]. unfold bindM at 1 2, lift, py_add.
    rewrite (@window_while_yield st idx tn refcol t i S T b (cs + T) (cs + T + S) Hs Hi)
      by lia.
    rewrite IH. reflexivity.
Qed.

Lemma ticks_bounds (a b T : Z) :
  0 < T -> a <= b ->
  exists m, ticks a b T = Datatypes.S m /\
            a + Z.of_nat m * T <= b < a + (Z.of_nat m + 1) * T.
Proof.
  intros HT Hab. unfold ticks. destruct (Z.leb_spec a b); [|lia].
  assert (Hq : 0 <= (b - a) / T) by (apply Z.div_pos; lia).
  exists (Z.to_nat ((b - a) / T)). split.
  - rewrite Z2Nat.inj_add by lia. rewrite Nat.add_comm. reflexivity.
  - rewrite Z2Nat.id by lia.
    pose proof (Z.mul_div_le (b - a) T HT).
    pose proof (Z.mul_succ_div_gt (b - a) T HT). lia.
Qed.

Lemma after_write_twice (h : handle) (s1 s2 : store) (st : state) :
  after_write (mkHandle s1 (in_txn h) true (functions h) (views h)) s2
              (after_write h s1 st) = after_write h s2 st.
Proof. unfold after_write. cbn. destruct (in_txn h); reflexivity. Qed.

(** The whole run of the window iterator, once its bounds and step are
    resolved to numbers. *)
Lemma window_run (st : state) (h : handle) (tn refcol : string) (t : table)
  (i : nat) (S T a b : Z) (ss start end_ : value) :
  the_conn st = Ok h -> find_table tn (tables (work h)) = Some t ->
  col_index refcol (header t) = Some i ->
  index_free (next_index_name st) (work h) ->
  (if negb (truthy ss) then VInt S else ss) = VInt T -> 0 < T ->
  py_or start (fst (column_bounds i t)) = VInt a ->
  py_or end_ (snd (column_bounds i t)) = VInt b ->
  drain iter_window (Datatypes.S (ticks a b T))
        (WindowStart tn refcol (VInt S) ss start end_) st =
  (window_slices t i S T (ticks a b T) a, Exhausted,
   after_write h (work h) (bump st)).
Proof.
  intros Hc Ht Hi Hfree Hss HT Ha Hb.
  set (idx := mkIndex (next_index_name st) tn [refcol]).
  set (st1 := after_write h (add_index idx (work h)) (bump st)).
  assert (Hs1 : sees st1 tn t).
  { eexists. split; [apply the_conn_after_write|exact Ht]. }
  assert (Hcreate : execute (sql_create_index (next_index_name st) tn [refcol]) (bump st)
                    = (Ok tt, st1)).
  { eapply create_index_ok; eauto using get_cols_one. }
  assert (Hdrop : execute (sql_drop_index (next_index_name st)) st1
                  = (Ok tt, after_write h (work h) (bump st))).
  { unfold st1. rewrite <- (after_write_twice h (add_index idx (work h)) (work h)).
    apply (@drop_index_ok _ _ (work h) idx); [apply the_conn_after_write|reflexivity|exact Hfree]. }
  assert (Hfirst :
    iter_window (WindowStart tn refcol (VInt S) ss start end_) st =
    window_while (next_index_name st) tn refcol (VInt S) (VInt T) (VInt b)
                 (VInt a) (VInt (a + S)) st1).
  { cbn [iter_window]. rewrite Hss.
    unfold bindM at 1. unfold uuid4 at 1.
    change (mkState (disk st) (conn st) (N.succ (uuid_seed st))) with (bump st).
    change ("tempIndex" ++ uuid_str (uuid_seed st))%string with (next_index_name st).
    unfold bindM at 1. rewrite Hcreate.
    unfold bindM at 1. rewrite (min_max_sees _ Hs1 Hi).
    rewrite Ha, Hb. unfold bindM at 1, lift, py_add. reflexivity. }
  destruct (Z.le_gt_cases a b) as [Hab|Hab].
  - destruct (ticks_bounds HT Hab) as (m & Hm & Hbounds). rewrite Hm.
    change (drain iter_window (Datatypes.S (Datatypes.S m))) with
      (fun g s => match iter_window g s with
         | (Ok (Some (df, g')), st') =>
             let '(dfs, e, st'') := drain iter_window (Datatypes.S m) g' st' in
             (df :: dfs, e, st'')
         | (Ok None, st') => ([], Exhausted, st')
         | (Raised e, st') => ([], Failed e, st')
         end).
    cbn beta. rewrite Hfirst.
    rewrite (@window_while_yield st1 (next_index_name st) tn refcol t i S T b a (a + S) Hs1 Hi Hab).
    rewrite (@window_resume st1 _ (next_index_name st) tn refcol t i S T b Hs1 Hi Hdrop HT m a Hbounds).
    reflexivity.
  - unfold ticks. destruct (Z.leb_spec a b); [lia|].
    cbn [drain]. rewrite Hfirst.
    rewrite (@window_while_stop st1 _ (next_index_name st) tn refcol S T b a (a + S) Hdrop Hab).
    reflexivity.
Qed.

Lemma nth_window_slices (t : table) (i : nat) (S T : Z) :
  forall (n : nat) (cs : Z) (j : nat), (j < n)%nat ->
  nth_error (window_slices t i S T n cs) j =
  Some (window_slice t i (cs + Z.of_nat j * T) (cs + Z.of_nat j * T + S)).
Proof.
  induction n as [|n IH]; intros cs j Hj; [lia|].
  destruct j as [|j]; cbn [window_slices nth_error].
  - replace (cs + Z.of_nat 0 * T) with cs by lia. reflexivity.
  - rewrite IH by lia. do 2 f_equal; lia.
Qed.

Lemma length_window_slices (t : table) (i : nat) (S T : Z) :
  forall (n : nat) (cs : Z), List.length (window_slices t i S T n cs) = n.
Proof. induction n as [|n IH]; intro cs; cbn; [reflexivity|]. now rewrite IH. Qed.

(** A row is yielded exactly when some tick's window holds its value. *)
Lemma yielded_window_slices (t : table) (i : nat) (S T : Z) (n : nat) (cs : Z)
  (r : row) :
  yielded (window_slices t i S T n cs) r <->
  In r (rows t) /\
  exists j, (j < n)%nat /\
            ref_in i (cs + Z.of_nat j * T) (cs + Z.of_nat j * T + S) r.
Proof.
  unfold yielded. split.
  - intros (df & Hdf & Hr). apply In_nth_error in Hdf as (j & Hj).
    assert (Hlt : (j < n)%nat).
    { rewrite <- (length_window_slices t i S T n cs).
      apply nth_error_Some. congruence. }
    rewrite nth_window_slices in Hj by exact Hlt. inversion Hj; subst.
    apply In_window_slice in Hr as [Hin Href]. split; [exact Hin|].
    exists j. split; assumption.
  - intros (Hin & j & Hlt & Href).
    exists (window_slice t i (cs + Z.of_nat j * T) (cs + Z.of_nat j * T + S)).
    split.
    + eapply nth_error_In. apply nth_window_slices. exact Hlt.
    + apply In_window_slice. split; assumption.
Qed.



Lemma window_disjoint (t : table) (i : nat) (S a : Z) (n : nat) :
  0 < S -> pairwise_disjoint (window_slices t i S S n a).
Proof.
  intros HS j1 j2 df1 df2 r H1 H2 Hne Hr1 Hr2.
  assert (L1 : (j1 < n)%nat).
  { rewrite <- (length_window_slices t i S S n a). apply nth_error_Some. congruence. }
  assert (L2 : (j2 < n)%nat).
  { rewrite <- (length_window_slices t i S S n a). apply nth_error_Some. congruence. }
  rewrite nth_window_slices in H1, H2 by assumption.
  inversion H1; subst. inversion H2; subst.
  apply In_window_slice in Hr1 as [_ (z1 & Hz1 & B1)].
  apply In_window_slice in Hr2 as [_ (z2 & Hz2 & B2)].
  assert (z1 = z2) by congruence. subst z2.
  apply Hne. nia.
Qed.

Lemma window_union (t : table) (i : nat) (S a : Z) (n : nat) (r : row) :
  0 < S ->
  yielded (window_slices t i S S n a) r <->
  In r (rows t) /\ ref_in i a (a + Z.of_nat n * S) r.
Proof.
  intros HS. rewrite yielded_window_slices. split.
  - intros (Hin & j & Hj & z & Hz & B). split; [exact Hin|].
    exists z. split; [exact Hz|]. nia.
  - intros (Hin & z & Hz & B). split; [exact Hin|].
    set (q := (z - a) / S).
    assert (Hq : 0 <= q) by (apply Z.div_pos; lia).
    pose proof (Z.mul_div_le (z - a) S ltac:(lia)) as H1.
    pose proof (Z.mul_succ_div_gt (z - a) S ltac:(lia)) as H2.
    fold q in H1, H2.
    exists (Z.to_nat q). split; [nia|].
    exists z. split; [exact Hz|]. rewrite Z2Nat.id by lia. lia.
Qed.




(** ** Falsy arguments and empty tables *)

(** C10. A [step_size], [start] or [end] that is falsy, such as the
    number 0, makes the window iterator behave exactly as if the argument
    had been left at its default [None]; with all three falsy the step is
    the window size and the bounds are the column's [MIN] and [MAX]. *)
Theorem iter_window_falsy_defaults (tn refcol : string)
  (window_size step_size start end_ v : value) (st : state) :
  truthy v = false ->
  iter_window (WindowStart tn refcol window_size v start end_) st =
    iter_window (WindowStart tn refcol window_size VNull start end_) st /\
  iter_window (WindowStart tn refcol window_size step_size v end_) st =
    iter_window (WindowStart tn refcol window_size step_size VNull end_) st /\
  iter_window (WindowStart tn refcol window_size step_size start v) st =
    iter_window (WindowStart tn refcol window_size step_size start VNull) st /\
  (forall h t i S a b,
     window_size = VInt S -> 0 < S ->
     the_conn st = Ok h -> find_table tn (tables (work h)) = Some t ->
     col_index refcol (header t) = Some i ->
     index_free (next_index_name st) (work h) ->
     column_bounds i t = (VInt a, VInt b) ->
     fst (fst (drain iter_window (Datatypes.S (ticks a b S))
                 (WindowStart tn refcol window_size v v v) st)) =
     window_slices t i S S (ticks a b S) a).
Proof.
  intro Hv. repeat split.
  - cbn [iter_window]. rewrite Hv. reflexivity.
  - cbn [iter_window]. unfold py_or. rewrite Hv. reflexivity.
  - cbn [iter_window]. unfold py_or. rewrite Hv. reflexivity.
  - intros h t i S a b -> HS Hc Ht Hi Hfree Hb.
    rewrite (@window_run st h tn refcol t i S S a b v v v); try assumption.
    + reflexivity.
    + rewrite Hv. reflexivity.
    + unfold py_or. rewrite Hv, Hb. reflexivity.
    + unfold py_or. rewrite Hv, Hb. reflexivity.
Qed.

Lemma iter_window_falsy_defaults_witness :
  iter_window (WindowStart "emp" "hiredate" (VInt 10000) (VInt 0) (VInt 0) (VInt 0))
              (in_session emp_store) =
  iter_window (WindowStart "emp" "hiredate" (VInt 10000) VNull VNull VNull)
              (in_session emp_store).
Proof.
  destruct (@iter_window_falsy_defaults "emp" "hiredate" (VInt 10000) (VInt 0)
              (VInt 0) (VInt 0) (VInt 0) (in_session emp_store) eq_refl)
    as (H1 & _).
  destruct (@iter_window_falsy_defaults "emp" "hiredate" (VInt 10000) VNull
              (VInt 0) (VInt 0) (VInt 0) (in_session emp_store) eq_refl)
    as (_ & H2 & _).
  destruct (@iter_window_falsy_defaults "emp" "hiredate" (VInt 10000) VNull
              VNull (VInt 0) (VInt 0) (in_session emp_store) eq_refl)
    as (_ & _ & H3 & _).
  rewrite H1, H2, H3. reflexivity.
Defined.

Lemma bounds_of_empty (i : nat) (t : table) :
  rows t = [] -> column_bounds i t = (VNull, VNull).
Proof. intro H. unfold column_bounds. rewrite H. reflexivity. Qed.

(** C9. Over a table without rows the chunk iterator raises a type error
    at its first [next], and so does the window iterator whenever [start]
    or [end] is left out (or falsy): the engine answers [NULL] for the
    minimum and maximum, and [None + size] or [start <= None] fails. *)
Theorem empty_table_type_error (st : state) (h : handle) (tn : string) (t : table) :
  the_conn st = Ok h -> find_table tn (tables (work h)) = Some t ->
  rows t = [] ->
  (forall chunk_size, exists msg,
     iter_chunk (ChunkStart tn chunk_size) st = (Raised (TypeError msg), st) /\
     drain iter_chunk 1 (ChunkStart tn chunk_size) st = ([], Failed (TypeError msg), st)) /\
  (forall refcol i window_size step_size start end_,
     col_index refcol (header t) = Some i ->
     index_free (next_index_name st) (work h) ->
     truthy start = false \/ truthy end_ = false ->
     exists msg st',
       iter_window (WindowStart tn refcol window_size step_size start end_) st =
       (Raised (TypeError msg), st') /\
       drain iter_window 1 (WindowStart tn refcol window_size step_size start end_) st =
       ([], Failed (TypeError msg), st')).
Proof.
  intros Hc Ht Hrows.
  assert (Hs : sees st tn t) by (exists h; split; assumption).
  split.
  - intro k. eexists.
    assert (E : iter_chunk (ChunkStart tn k) st =
                (Raised (TypeError "unsupported operand type(s) for +"), st)).
    { cbn [iter_chunk]. unfold bindM at 1.
      rewrite (min_max_rowid_sees Hs), Hrows. cbn. reflexivity. }
    split; [exact E|]. cbn [drain]. rewrite E. reflexivity.
  - intros refcol i ws ss start end_ Hi Hfree Hfalsy.
    set (idx := mkIndex (next_index_name st) tn [refcol]).
    set (st1 := after_write h (add_index idx (work h)) (bump st)).
    assert (Hs1 : sees st1 tn t).
    { eexists. split; [apply the_conn_after_write|exact Ht]. }
    assert (Hcreate : execute (sql_create_index (next_index_name st) tn [refcol]) (bump st)
                      = (Ok tt, st1)).
    { eapply create_index_ok; eauto using get_cols_one. }
    assert (E : exists msg,
      iter_window (WindowStart tn refcol ws ss start end_) st =
      (Raised (TypeError msg), st1)).
    { cbn [iter_window]. unfold bindM at 1. unfold uuid4 at 1.
      change (mkState (disk st) (conn st) (N.succ (uuid_seed st))) with (bump st).
      change ("tempIndex" ++ uuid_str (uuid_seed st))%string with (next_index_name st).
      unfold bindM at 1. rewrite Hcreate.
      unfold bindM at 1. rewrite (min_max_sees _ Hs1 Hi), (@bounds_of_empty i t Hrows).
      cbn [fst snd]. unfold bindM at 1, lift, py_or.
      destruct (truthy start) eqn:Es.
      - destruct Hfalsy as [Hf|Hf]; [discriminate|]. rewrite Hf.
        destruct (py_add start ws) as [ce|e] eqn:Ea.
        + unfold window_while, bindM, lift.
          destruct start; cbn in Es; try discriminate; cbn; eexists; reflexivity.
        + destruct start, ws; cbn in Ea; try discriminate;
            inversion Ea; eexists; reflexivity.
      - destruct start; cbn in Es |- *; eexists; reflexivity. }
    destruct E as (msg & E). exists msg, st1.
    split; [exact E|]. cbn [drain]. rewrite E. reflexivity.
Qed.

Lemma empty_table_type_error_witness :
  let st := in_session (mkStore [("t", mkTable ["a"] [])] [] []) in
  (exists msg,
     drain iter_chunk 1 (ChunkStart "t" (VInt 5)) st = ([], Failed (TypeError msg), st)) /\
  (exists msg st',
     drain iter_window 1 (WindowStart "t" "a" (VInt 5) VNull VNull (VInt 9)) st =
     ([], Failed (TypeError msg), st')).
Proof.
  intro st.
  destruct (@empty_table_type_error st
              (mkHandle (mkStore [("t", mkTable ["a"] [])] [] []) true true [] [])
              "t" (mkTable ["a"] []) eq_refl eq_refl eq_refl) as (Hchunk & Hwindow).
  split.
  - destruct (Hchunk (VInt 5)) as (msg & _ & Hd). exists msg. exact Hd.
  - destruct (Hwindow "a" 0%nat (VInt 5) VNull VNull (VInt 9) eq_refl eq_refl
                      (or_introl eq_refl)) as (msg & st' & _ & Hd).
    exists msg, st'. exact Hd.
Defined.

(** The scenario of the tests: [emp] grouped by department and job. *)
Lemma iter_group_emp_by_deptno_job :
  sizes (fst (fst (drain iter_group 10 (GroupStart "emp" (ColList ["deptno"; "job"]))
                         (in_session emp_store)))) = [1; 1; 1; 2; 2; 1; 1; 1; 4]%nat.
Proof. reflexivity. Qed.

(** ** [iter_group] *)

Lemma col_indexes_length (cs hdr : list string) :
  forall ix, col_indexes cs hdr = Some ix -> List.length ix = List.length cs.
Proof.
  induction cs as [|c cs IH]; intros ix H; cbn in H.
  - inversion H. reflexivity.
  - destruct (col_index c hdr); [|discriminate].
    destruct (col_indexes cs hdr) as [ix'|]; [|discriminate].
    inversion H; subst. cbn. f_equal. apply IH. reflexivity.
Qed.

Lemma get_cols_length (cs : list string) (t : table) (ix : list nat) :
  get_cols cs t = Ok ix -> List.length ix = List.length cs.
Proof.
  unfold get_cols. destruct cs as [|c cs]; [discriminate|].
  destruct (col_indexes (c :: cs) (header t)) as [ix'|] eqn:E; [|discriminate].
  intro H. inversion H; subst. eapply col_indexes_length, E.
Qed.

Lemma distinct_In (ks : list (list value)) (k : list value) :
  In k (distinct ks) -> In k ks.
Proof.
  induction ks as [|k0 ks IH]; cbn; [tauto|].
  intros [->|H]; [now left|]. right. apply IH.
  apply filter_In in H. tauto.
Qed.

Lemma group_keys_length (t : table) (ix : list nat) (k : list value) :
  In k (group_keys t ix) -> List.length k = List.length ix.
Proof.
  unfold group_keys. rewrite sort_by_In. intro H. apply distinct_In in H.
  apply in_map_iff in H as (r & <- & _). unfold key_of. apply length_map.
Qed.

Lemma select_where_eq_sees (st : state) (tn : string) (t : table)
  (cols : list string) (ix : list nat) (key : list value) :
  sees st tn t -> get_cols cols t = Ok ix ->
  List.length key = List.length cols ->
  query (sql_select_where_eq tn cols key) st = (Ok (group_slice t ix key), st).
Proof.
  intros (h & Hc & Ht) Hg Hlen. unfold query, sql_select_where_eq, get_table.
  rewrite Hc, Ht. cbn [bind]. rewrite Hg. cbn [bind].
  rewrite Hlen, Nat.eqb_refl. reflexivity.
Qed.

Lemma select_distinct_sees (st : state) (tn : string) (t : table)
  (cols : list string) (ix : list nat) :
  sees st tn t -> get_cols cols t = Ok ix ->
  query (sql_select_distinct tn cols) st = (Ok (group_keys t ix), st).
Proof.
  intros (h & Hc & Ht) Hg. unfold query, sql_select_distinct, get_table.
  rewrite Hc, Ht. cbn [bind]. rewrite Hg. reflexivity.
Qed.

(** The [for] loop over the keys still to come. *)
Lemma group_for_run (st st' : state) (idx tn : string) (t : table)
  (cols : list string) (ix : list nat) :
  sees st tn t -> get_cols cols t = Ok ix ->
  execute (sql_drop_index idx) st = (Ok tt, st') ->
  forall groups,
  (forall k, In k groups -> List.length k = List.length cols) ->
  drain iter_group (Datatypes.S (List.length groups)) (GroupFor idx tn cols groups) st =
  (map (group_slice t ix) groups, Exhausted, st').
Proof.
  intros Hs Hg Hd. induction groups as [|k groups IH]; intros Hlen.
  - cbn [drain iter_group group_for List.length]. unfold bindM, ret.
    rewrite Hd. reflexivity.
  - cbn [List.length].
    change (drain iter_group (Datatypes.S (Datatypes.S (List.length groups)))) with
      (fun g s => match iter_group g s with
         | (Ok (Some (df, g')), st') =>
             let '(dfs, e, st'') := drain iter_group (Datatypes.S (List.length groups)) g' st' in
             (df :: dfs, e, st'')
         | (Ok None, st') => ([], Exhausted, st')
         | (Raised e, st') => ([], Failed e, st')
         end).
    cbn beta. cbn [iter_group group_for]. unfold bindM at 1.
    rewrite (@select_where_eq_sees st tn t cols ix k Hs Hg) by (apply Hlen; now left).
    unfold ret. rewrite IH by (intros k' Hk'; apply Hlen; now right).
    reflexivity.
Qed.

(** The first [next] of the group iterator: the index is created and the
    keys are fetched, then the loop starts. *)
Lemma group_first (st : state) (h : handle) (tn : string) (t : table)
  (cols : list string) (ix : list nat) :
  the_conn st = Ok h -> find_table tn (tables (work h)) = Some t ->
  get_cols cols t = Ok ix ->
  index_free (next_index_name st) (work h) ->
  iter_group (GroupStart tn (ColList cols)) st =
  group_for (next_index_name st) tn cols (group_keys t ix)
    (after_write h (add_index (mkIndex (next_index_name st) tn cols) (work h)) (bump st)).
Proof.
  intros Hc Ht Hg Hfree.
  cbn [iter_group]. unfold bindM at 1. unfold uuid4 at 1.
  change (mkState (disk st) (conn st) (N.succ (uuid_seed st))) with (bump st).
  change ("tempIndex" ++ uuid_str (uuid_seed st))%string with (next_index_name st).
  unfold bindM at 1.
  rewrite (@create_index_ok (bump st) h tn t cols ix (next_index_name st) Hc Ht Hg Hfree).
  unfold bindM at 1. rewrite (@select_distinct_sees _ tn t cols ix); [reflexivity| |exact Hg].
  eexists. split; [apply the_conn_after_write|exact Ht].
Qed.

(** The whole run of the group iterator. *)
Lemma group_run (st : state) (h : handle) (tn : string) (t : table)
  (cols : list string) (ix : list nat) :
  the_conn st = Ok h -> find_table tn (tables (work h)) = Some t ->
  get_cols cols t = Ok ix ->
  index_free (next_index_name st) (work h) ->
  drain iter_group (Datatypes.S (List.length (group_keys t ix)))
        (GroupStart tn (ColList cols)) st =
  (map (group_slice t ix) (group_keys t ix), Exhausted,
   after_write h (work h) (bump st)).
Proof.
  intros Hc Ht Hg Hfree.
  set (idx := mkIndex (next_index_name st) tn cols).
  set (st1 := after_write h (add_index idx (work h)) (bump st)).
  assert (Hs1 : sees st1 tn t).
  { eexists. split; [apply the_conn_after_write|exact Ht]. }
  assert (Hdrop : execute (sql_drop_index (next_index_name st)) st1
                  = (Ok tt, after_write h (work h) (bump st))).
  { unfold st1. rewrite <- (after_write_twice h (add_index idx (work h)) (work h)).
    apply (@drop_index_ok _ _ (work h) idx); [apply the_conn_after_write|reflexivity|exact Hfree]. }
  pose proof (@group_for_run st1 _ (next_index_name st) tn t cols ix Hs1 Hg Hdrop
                (group_keys t ix)) as Hrun.
  assert (Hlen : forall k, In k (group_keys t ix) -> List.length k = List.length cols).
  { intros k Hk. rewrite (@group_keys_length t ix k Hk). eapply get_cols_length, Hg. }
  specialize (Hrun Hlen).
  pose proof (@group_first st h tn t cols ix Hc Ht Hg Hfree) as Hfirst. fold idx st1 in Hfirst.
  destruct (group_keys t ix) as [|k ks] eqn:Ek.
  - cbn [drain List.length] in *. rewrite Hfirst. exact Hrun.
  - cbn [List.length] in *.
    change (drain iter_group (Datatypes.S (Datatypes.S (List.length ks)))) with
      (fun g s => match iter_group g s with
         | (Ok (Some (df, g')), st') =>
             let '(dfs, e, st'') := drain iter_group (Datatypes.S (List.length ks)) g' st' in
             (df :: dfs, e, st'')
         | (Ok None, st') => ([], Exhausted, st')
         | (Raised e, st') => ([], Failed e, st')
         end) in *.
    cbn beta in *. rewrite Hfirst. exact Hrun.
Qed.

(** C2. Grouping [emp] by [mgr], a column with a [NULL]: the enumeration
    has a key for the [NULL] group, but [mgr = ?] is never true for it, so
    the slice yielded for that key is empty and the row of KING is in no
    slice at all. *)
Theorem iter_group_loses_null_keys :
  sizes emp_by_mgr = [2; 5; 1; 1; 3; 1; 0]%nat /\
  In king (rows emp) /\
  ~ yielded emp_by_mgr king.
Proof.
  split; [reflexivity|]. split; [cbn; auto 20|].
  intros (df & Hdf & Hr).
  vm_compute in Hdf.
  repeat (destruct Hdf as [<-|Hdf];
          [vm_compute in Hr;
           repeat (destruct Hr as [Hr|Hr]; [discriminate Hr|]); exact Hr|]).
  exact Hdf.
Qed.

(** ** The ephemeral index *)

Lemma uuid_str_inj (n m : N) : uuid_str n = uuid_str m -> n = m.
Proof.
  intro H.
  assert (R : forall k, HexString.Raw.to_N (uuid_str k) 0%N = k).
  { intros [|p]; [reflexivity|]. cbn [uuid_str].
    rewrite HexString.Raw.to_N_of_pos. reflexivity. }
  rewrite <- (R n), <- (R m), H. reflexivity.
Qed.

Lemma next_index_name_inj (st1 st2 : state) :
  next_index_name st1 = next_index_name st2 -> uuid_seed st1 = uuid_seed st2.
Proof.
  unfold next_index_name. intro H. cbn in H.
  repeat match type of H with
         | String _ _ = String _ _ => inversion H as [H']; clear H; rename H' into H
         end.
  apply uuid_str_inj, H.
Qed.

(** No [next] of the chunk iterator changes the state: it sends queries
    only. *)
Lemma iter_chunk_state (g : chunk_gen) (st : state) :
  snd (iter_chunk g st) = st.
Proof.
  assert (W : forall tn k e cs ce, snd (chunk_while tn k e cs ce st) = st).
  { intros. unfold chunk_while, bindM, lift, query, ret.
    destruct (py_le cs e) as [[|]|?]; cbn; try reflexivity.
    destruct (the_conn st); cbn; [|reflexivity].
    destruct (sql_select_rowid_range _ _ _ _); reflexivity. }
  destruct g as [tn k|tn k e cs]; cbn [iter_chunk].
  - unfold bindM at 1. unfold query at 1.
    destruct (the_conn st); [|reflexivity].
    destruct (sql_min_max_rowid tn (work a)) as [bounds|?]; [|reflexivity].
    unfold bindM at 1, lift.
    destruct (py_add (fst bounds) k); [apply W|reflexivity].
  - unfold bindM at 1, lift.
    destruct (py_add cs k) as [cs'|?]; [|reflexivity].
    unfold bindM at 1.
    destruct (py_add cs' k); [apply W|reflexivity].
Qed.

(** When the window iterator yields its first slice, the index is there. *)
Lemma window_first_yield (st : state) (h : handle) (tn refcol : string)
  (t : table) (i : nat) (ws ss start end_ : value) (df : slice) (g : window_gen)
  (st1 : state) :
  the_conn st = Ok h -> find_table tn (tables (work h)) = Some t ->
  col_index refcol (header t) = Some i ->
  index_free (next_index_name st) (work h) ->
  iter_window (WindowStart tn refcol ws ss start end_) st = (Ok (Some (df, g)), st1) ->
  st1 = after_write h (add_index (mkIndex (next_index_name st) tn [refcol]) (work h))
                    (bump st).
Proof.
  intros Hc Ht Hi Hfree.
  set (idx := mkIndex (next_index_name st) tn [refcol]).
  set (s1 := after_write h (add_index idx (work h)) (bump st)).
  assert (Hs1 : sees s1 tn t).
  { eexists. split; [apply the_conn_after_write|exact Ht]. }
  cbn [iter_window]. unfold bindM at 1. unfold uuid4 at 1.
  change (mkState (disk st) (conn st) (N.succ (uuid_seed st))) with (bump st).
  change ("tempIndex" ++ uuid_str (uuid_seed st))%string with (next_index_name st).
  unfold bindM at 1.
  rewrite (@create_index_ok (bump st) h tn t [refcol] [i] (next_index_name st) Hc Ht
             (get_cols_one _ _ Hi) Hfree).
  fold idx s1. unfold bindM at 1. rewrite (min_max_sees _ Hs1 Hi).
  unfold bindM at 1, lift.
  destruct (py_add _ ws) as [ce|?]; [|discriminate].
  unfold window_while, bindM, lift.
  destruct (py_le _ _) as [[|]|?]; try discriminate.
  - unfold query. destruct (the_conn s1); [|discriminate].
    destruct (sql_select_range _ _ _ _ _); [|discriminate].
    unfold ret. intro H. inversion H. reflexivity.
  - destruct (execute _ s1) as [[[]|?] ?]; discriminate.
Qed.

Lemma work_of_after_write (h : handle) (s : store) (st : state) :
  work_of (after_write h s st) = s.
Proof. reflexivity. Qed.

Lemma work_of_conn (st : state) (h : handle) :
  the_conn st = Ok h -> work_of st = work h.
Proof.
  unfold the_conn, work_of. destruct (conn st) as [h'|]; [|discriminate].
  destruct (is_open h'); [|discriminate]. intro H. inversion H. reflexivity.
Qed.

(** C5, amended.  The group and the window iterator draw a fresh token,
    create the index [tempIndex<token>] before they yield their first
    slice and drop it when the sequence is exhausted, leaving the indexes
    of the store as they were; two draws never give the same name.  The
    chunk iterator creates no index: none of its steps changes the
    state. *)
Theorem ephemeral_index_lifecycle (st : state) (h : handle) (tn : string) (t : table) :
  the_conn st = Ok h -> find_table tn (tables (work h)) = Some t ->
  index_free (next_index_name st) (work h) ->
  (forall cols ix,
     get_cols cols t = Ok ix ->
     (forall df g st1,
        iter_group (GroupStart tn (ColList cols)) st = (Ok (Some (df, g)), st1) ->
        In (mkIndex (next_index_name st) tn cols) (indexes (work_of st1)) /\
        uuid_seed st1 = N.succ (uuid_seed st)) /\
     exists fuel dfs st',
       drain iter_group fuel (GroupStart tn (ColList cols)) st = (dfs, Exhausted, st') /\
       indexes (work_of st') = indexes (work_of st) /\
       uuid_seed st' = N.succ (uuid_seed st)) /\
  (forall refcol i,
     col_index refcol (header t) = Some i ->
     (forall ws ss start end_ df g st1,
        iter_window (WindowStart tn refcol ws ss start end_) st = (Ok (Some (df, g)), st1) ->
        In (mkIndex (next_index_name st) tn [refcol]) (indexes (work_of st1)) /\
        uuid_seed st1 = N.succ (uuid_seed st)) /\
     (forall S T a b ss start end_,
        (if negb (truthy ss) then VInt S else ss) = VInt T -> 0 < T ->
        py_or start (fst (column_bounds i t)) = VInt a ->
        py_or end_ (snd (column_bounds i t)) = VInt b ->
        exists fuel dfs st',
          drain iter_window fuel (WindowStart tn refcol (VInt S) ss start end_) st =
            (dfs, Exhausted, st') /\
          indexes (work_of st') = indexes (work_of st) /\
          uuid_seed st' = N.succ (uuid_seed st))) /\
  (forall g s, snd (iter_chunk g s) = s) /\
  (forall s1 s2, uuid_seed s1 <> uuid_seed s2 -> next_index_name s1 <> next_index_name s2).
Proof.
  intros Hc Ht Hfree. split; [|split; [|split]].
  - intros cols ix Hg. split.
    + intros df g st1 H.
      rewrite (@group_first st h tn t cols ix Hc Ht Hg Hfree) in H.
      unfold group_for in H. destruct (group_keys t ix) as [|k ks].
      * unfold bindM in H. destruct (execute _ _) as [[[]|?] ?]; discriminate.
      * unfold bindM, query, ret in H. cbn [the_conn_after_write] in H.
        rewrite the_conn_after_write in H.
        destruct (sql_select_where_eq _ _ _ _); [|discriminate].
        inversion H; subst. split; [left; reflexivity|reflexivity].
    + eexists _, _, _. split; [apply group_run; eassumption|].
      rewrite work_of_after_write, (work_of_conn _ Hc). split; reflexivity.
  - intros refcol i Hi. split.
    + intros ws ss start end_ df g st1 H.
      apply (@window_first_yield st h tn refcol t i ws ss start end_ df g st1 Hc Ht Hi Hfree) in H.
      subst st1.
      split; [left; reflexivity|reflexivity].
    + intros S T a b ss start end_ Hss HT Ha Hb.
      eexists _, _, _. split; [apply window_run; eassumption|].
      rewrite work_of_after_write, (work_of_conn _ Hc). split; reflexivity.
  - apply iter_chunk_state.
  - intros s1 s2 Hne Heq. apply Hne, next_index_name_inj, Heq.
Qed.

Lemma ephemeral_index_lifecycle_witness :
  exists fuel dfs st',
    drain iter_group fuel (GroupStart "emp" (ColList ["deptno"; "job"]))
          (in_session emp_store) = (dfs, Exhausted, st') /\
    indexes (work_of st') = [].
Proof.
  destruct (@ephemeral_index_lifecycle (in_session emp_store)
              (mkHandle emp_store true true [] []) "emp" emp
              eq_refl eq_refl eq_refl) as (Hgroup & _).
  destruct (Hgroup ["deptno"; "job"] [7%nat; 2%nat] eq_refl)
    as (_ & fuel & dfs & st' & Hd & Hi & _).
  exists fuel, dfs, st'. split; [exact Hd|exact Hi].
Defined.

(** C5 as stated fails for the chunk iterator: its first slice is yielded
    with no index created and no token drawn. *)
Lemma iter_chunk_creates_no_index :
  let st := in_session emp_store in
  exists df g,
    iter_chunk (ChunkStart "emp" (VInt 5)) st = (Ok (Some (df, g)), st) /\
    indexes (work_of st) = [] /\
    ~ (exists st1 i, iter_chunk (ChunkStart "emp" (VInt 5)) st = (Ok (Some (df, g)), st1) /\
                     In i (indexes (work_of st1))).
Proof.
  intro st. eexists _, _. split; [vm_compute; reflexivity|].
  split; [reflexivity|].
  intros (st1 & i & H & Hin).
  pose proof (iter_chunk_state (ChunkStart "emp" (VInt 5)) st) as Hs.
  rewrite H in Hs. cbn in Hs. subst st1. exact Hin.
Qed.

(** ** [push] *)

Lemma find_table_listed (tn : string) (s : store) :
  find_table tn (tables s) = None <-> table_listed tn s = false.
Proof.
  unfold table_listed. induction (tables s) as [|[n t] ts IH]; cbn.
  - tauto.
  - unfold name_eqb at 1. destruct (String.eqb (lower tn) (lower n)); cbn.
    + split; discriminate.
    + exact IH.
Qed.





(** The steps of [push] up to the branch: the table list is read, a token
    is drawn and the slice is registered under the generated name. *)
Lemma push_unfold (df : slice) (tn : string) (st : state) (h : handle) :
  the_conn st = Ok h ->
  push df tn st =
  (let name := next_view_name st in
   let hr := mkHandle (work h) (in_txn h) true (functions h)
                      ((name, df) :: remove_view name (views h)) in
   let str := set_conn (bump st) hr in
   match (if negb (table_listed tn (work h))
          then execute (sql_create_table_as tn (Some df)) str
          else execute (sql_insert_select tn (Some df)) str) with
   | (Ok _, st2) => conn_unregister name st2
   | (Raised e, st2) => (Raised e, st2)
   end).
Proof.
  intro Hc. unfold push. unfold bindM at 1. unfold query at 1. rewrite Hc.
  unfold sql_show_tables. unfold bindM at 1. unfold uuid4 at 1.
  change (mkState (disk st) (conn st) (N.succ (uuid_seed st))) with (bump st).
  change ("tempDFView" ++ uuid_str (uuid_seed st))%string with (next_view_name st).
  unfold bindM at 1. unfold conn_register at 1. rewrite the_conn_bump, Hc.
  unfold bindM at 1. cbv zeta.
  fold (table_listed tn (work h)).
  destruct (negb (table_listed tn (work h))); unfold execute_from;
    cbn [the_conn set_conn conn is_open views find_view];
    rewrite name_eqb_refl; reflexivity.
Qed.



(** ** The JSON codec *)

Lemma append_assoc (a b c : string) :
  ((a ++ b) ++ c)%string = (a ++ (b ++ c))%string.
Proof. induction a as [|x a IH]; cbn; [reflexivity|]. now rewrite IH. Qed.

Lemma length_append (a b : string) :
  String.length (a ++ b)%string = (String.length a + String.length b)%nat.
Proof. induction a as [|x a IH]; cbn; [reflexivity|]. now rewrite IH. Qed.

(** *** Texts *)

Lemma scanstring_encode_char (c : ascii) (rest : string) :
  scanstring (encode_char c ++ rest)%string = parsed_cons c (scanstring rest).
Proof.
  destruct c as [[|] [|] [|] [|] [|] [|] [|] [|]]; reflexivity.
Qed.

Lemma scanstring_encode_chars (s rest : string) :
  scanstring (encode_chars s ++ String dquote rest)%string = Parsed s rest.
Proof.
  induction s as [|c s IH]; [reflexivity|].
  cbn [encode_chars]. rewrite append_assoc, scanstring_encode_char, IH.
  reflexivity.
Qed.

(** *** Integers *)

Lemma scan_digits_uint (u : uint) (rest : string) :
  head_is is_digit rest = false ->
  scan_digits (NilEmpty.string_of_uint u ++ rest)%string = (u, rest).
Proof.
  intro Hr. induction u as [|u IH|u IH|u IH|u IH|u IH|u IH|u IH|u IH|u IH|u IH];
    cbn; try (rewrite IH; reflexivity).
  destruct rest as [|c r]; [reflexivity|]. cbn in Hr |- *.
  unfold is_digit in Hr. destruct (digit c); [discriminate|reflexivity].
Qed.

Lemma nzhead_shape (u : uint) :
  match nzhead u with D0 _ => False | _ => True end.
Proof. induction u; cbn; auto. Qed.

(** The decimal digits of a positive number start with a digit from 1
    to 9. *)
Lemma pos_to_uint_shape (p : positive) :
  match Pos.to_uint p with Nil | D0 _ => False | _ => True end.
Proof.
  pose proof (DecimalPos.Unsigned.to_of (Pos.to_uint p)) as H.
  rewrite DecimalPos.Unsigned.of_to in H. cbn [N.to_uint] in H.
  pose proof (DecimalPos.Unsigned.to_uint_nonzero p) as Hz.
  pose proof (nzhead_shape (Pos.to_uint p)) as Hs.
  rewrite H. unfold unorm. unfold unorm in H.
  destruct (nzhead (Pos.to_uint p)); auto.
Qed.

Lemma of_uint_pos (p : positive) : Z.of_uint (Pos.to_uint p) = Zpos p.
Proof.
  unfold Z.of_uint. rewrite DecimalPos.Unsigned.of_to. reflexivity.
Qed.

Lemma delimiter_ends_number (c : ascii) (r : string) :
  is_delimiter c = true ->
  head_is is_digit (String c r) = false /\ float_follows (String c r) = false.
Proof.
  unfold is_delimiter. intro H. apply orb_true_iff in H as [H|H];
    apply Ascii.eqb_eq in H; subst c; split; reflexivity.
Qed.


(** *** Primitive values and lists of them *)


(** The text of a primitive value starts with a character that is neither
    blank nor a closing bracket. *)
Lemma dumps_head (v : pyval) :
  is_primitive v = true ->
  exists c r, dumps v = String c r /\ is_ws c = false /\ Ascii.eqb c "]" = false.
Proof.
  intro Hp. destruct v as [|[|]|z|s|l]; try discriminate;
    try (eexists _, _; split; [reflexivity|split; reflexivity]).
  destruct z as [|p|p]; try (eexists _, _; split; [reflexivity|split; reflexivity]).
  cbn [dumps encode_int]. pose proof (pos_to_uint_shape p) as Hs.
  destruct (Pos.to_uint p); try contradiction;
    eexists _, _; (split; [reflexivity|split; reflexivity]).
Qed.



Lemma scan_elements_comma (fuel : nat) (s r : string) (v : pyval) :
  scan_once fuel s = Parsed v (String "," (String " " r)) ->
  scan_elements (S fuel) s = parsed_map (cons v) (scan_elements fuel (skip_ws r)).
Proof. intro H. cbn [scan_elements]. rewrite H. reflexivity. Qed.

Lemma scan_elements_close (fuel : nat) (s r : string) (v : pyval) :
  scan_once fuel s = Parsed v (String "]" r) ->
  scan_elements (S fuel) s = Parsed [v] r.
Proof. intro H. cbn [scan_elements]. rewrite H. reflexivity. Qed.


Lemma dumps_list (l : list pyval) :
  dumps (PList l) = String "[" (dumps_items l ++ "]")%string.
Proof.
  reflexivity.
Qed.


Lemma scan_once_bracket (fuel : nat) (s r : string) (c : ascii) :
  skip_ws s = String c r -> Ascii.eqb c "]" = false ->
  scan_once (S fuel) (String "[" s) = parsed_map PList (scan_elements fuel (String c r)).
Proof.
  intros H Hb. cbn [scan_once].
  change (Ascii.eqb "[" dquote) with false.
  change (Ascii.eqb "[" "{") with false.
  change (Ascii.eqb "[" "[") with true.
  cbv iota. rewrite H, Hb. reflexivity.
Qed.




(** ** [iter_group] on tables without [NULL] keys

    The loss shown above is confined to [NULL]: when no grouping column
    holds one, the group iterator partitions the table. *)

Lemma value_eqb_eq (a b : value) : value_eqb a b = true <-> a = b.
Proof.
  destruct a, b; cbn; try (split; [discriminate|congruence]).
  - tauto.
  - rewrite Z.eqb_eq. split; congruence.
  - rewrite String.eqb_eq. split; congruence.
Qed.

Lemma key_eqb_eq (k1 k2 : list value) : key_eqb k1 k2 = true <-> k1 = k2.
Proof.
  revert k2. induction k1 as [|a k1 IH]; intros [|b k2]; cbn;
    try (split; [discriminate|congruence]); [tauto|].
  rewrite andb_true_iff, value_eqb_eq, IH.
  split; [intros []; congruence|intro H; inversion H; auto].
Qed.

Lemma value_leb_total (a b : value) : value_leb a b = false -> value_leb b a = true.
Proof.
  destruct a, b; cbn; try congruence.
  - intro H. apply Z.leb_gt in H. apply Z.leb_le. lia.
  - intro H. destruct (String.leb_total s s0) as [E|E]; congruence.
Qed.

Lemma key_leb_total (k1 k2 : list value) : key_leb k1 k2 = false -> key_leb k2 k1 = true.
Proof.
  revert k2. induction k1 as [|a k1 IH]; intros [|b k2]; cbn; try congruence.
  destruct (value_eqb a b) eqn:E.
  - apply value_eqb_eq in E. subst b.
    rewrite (proj2 (value_eqb_eq a a) eq_refl). apply IH.
  - destruct (value_eqb b a) eqn:E'.
    + apply value_eqb_eq in E'. subst b.
      rewrite (proj2 (value_eqb_eq a a) eq_refl) in E. discriminate.
    + apply value_leb_total.
Qed.

Lemma insert_by_key_sorted (k : list value) (l : list (list value)) :
  Sorted key_before l -> Sorted key_before (insert_by key_leb k l).
Proof.
  induction 1 as [|k0 l Hs IH Hhd]; cbn.
  - repeat constructor.
  - destruct (key_leb k k0) eqn:E.
    + constructor; [constructor; assumption|]. constructor. exact E.
    + constructor; [exact IH|].
      destruct l as [|k1 l]; cbn.
      * constructor. apply key_leb_total, E.
      * destruct (key_leb k k1).
        -- constructor. apply key_leb_total, E.
        -- inversion Hhd; subst. constructor. assumption.
Qed.

Lemma sort_keys_sorted (l : list (list value)) : Sorted key_before (sort_by key_leb l).
Proof.
  induction l as [|k l IH]; cbn; [constructor|]. apply insert_by_key_sorted, IH.
Qed.

Lemma In_distinct (ks : list (list value)) (k : list value) :
  In k ks -> In k (distinct ks).
Proof.
  induction ks as [|k0 ks IH]; cbn; [tauto|].
  intros [->|H]; [now left|].
  destruct (key_eqb k0 k) eqn:E.
  - apply key_eqb_eq in E. now left.
  - right. apply filter_In. split; [apply IH, H|]. rewrite E. reflexivity.
Qed.

Lemma NoDup_distinct (ks : list (list value)) : NoDup (distinct ks).
Proof.
  induction ks as [|k ks IH]; cbn; constructor.
  - intro H. apply filter_In in H as [_ H].
    rewrite (proj2 (key_eqb_eq k k) eq_refl) in H. discriminate.
  - apply NoDup_filter, IH.
Qed.

Lemma NoDup_group_keys (t : table) (ix : list nat) : NoDup (group_keys t ix).
Proof.
  unfold group_keys. eapply Permutation_NoDup;
    [apply Permutation_sym, sort_by_perm|apply NoDup_distinct].
Qed.

Lemma In_group_keys (t : table) (ix : list nat) (k : list value) :
  In k (group_keys t ix) <-> exists r, In r (rows t) /\ key_of ix r = k.
Proof.
  unfold group_keys. rewrite sort_by_In. split.
  - intro H. apply distinct_In in H. apply in_map_iff in H as (r & E & Hr).
    exists r. split; assumption.
  - intros (r & Hr & <-). apply In_distinct, in_map, Hr.
Qed.

Lemma sql_eq_true (a b : value) : sql_eq a b = Some true -> a = b.
Proof.
  destruct a, b; cbn; try discriminate; intro H; inversion H as [E].
  - apply Z.eqb_eq in E. congruence.
  - apply String.eqb_eq in E. congruence.
Qed.

Lemma sql_eq_refl (a : value) : a <> VNull -> sql_eq a a = Some true.
Proof.
  destruct a; cbn; [congruence| |]; intros _.
  - now rewrite Z.eqb_refl.
  - now rewrite String.eqb_refl.
Qed.

Lemma sql_and_true (a b : option bool) :
  sql_and a b = Some true <-> a = Some true /\ b = Some true.
Proof.
  destruct a as [[|]|], b as [[|]|]; cbn; split;
    try discriminate; try tauto; intros []; discriminate.
Qed.

(** A row matches a key of the right length only if the key is its own. *)
Lemma key_matches_own (ix : list nat) (r : row) :
  forall k, List.length k = List.length ix ->
  key_matches ix k r = Some true -> k = key_of ix r.
Proof.
  induction ix as [|i ix IH]; intros [|v k] Hlen H; cbn in Hlen; try lia.
  - reflexivity.
  - cbn in H. apply sql_and_true in H as [H1 H2].
    apply sql_eq_true in H1. cbn. f_equal; [congruence|].
    apply IH; [lia|exact H2].
Qed.

Lemma key_matches_self (ix : list nat) (r : row) :
  Forall (fun v => v <> VNull) (key_of ix r) ->
  key_matches ix (key_of ix r) r = Some true.
Proof.
  induction ix as [|i ix IH]; intro H; cbn; [reflexivity|].
  cbn in H. inversion H; subst.
  apply sql_and_true. split; [apply sql_eq_refl; assumption|apply IH; assumption].
Qed.

Lemma In_group_slice (t : table) (ix : list nat) (k : list value) (r : row) :
  In r (srows (group_slice t ix k)) <->
  In r (rows t) /\ key_matches ix k r = Some true.
Proof.
  unfold group_slice. cbn. rewrite filter_In. unfold is_true.
  destruct (key_matches ix k r) as [[|]|]; split; intros []; split;
    congruence.
Qed.

(** On a table without [NULL] in the grouping columns the group iterator
    runs to exhaustion and yields one slice per distinct key, the keys in
    ascending order; no slice is empty, no row is in two slices, and the
    rows of the slices are the rows of the table. *)
Lemma iter_group_partition (st : state) (h : handle) (tn : string) (t : table)
  (cols : list string) (ix : list nat) :
  the_conn st = Ok h -> find_table tn (tables (work h)) = Some t ->
  get_cols cols t = Ok ix ->
  index_free (next_index_name st) (work h) ->
  null_free ix t ->
  let keys := group_keys t ix in
  let dfs := map (group_slice t ix) keys in
  (forall fuel, (List.length keys < fuel)%nat ->
     drain iter_group fuel (GroupStart tn (ColList cols)) st =
     (dfs, Exhausted, after_write h (work h) (bump st))) /\
  Sorted key_before keys /\ NoDup keys /\
  (forall k, In k keys <-> exists r, In r (rows t) /\ key_of ix r = k) /\
  Forall (fun df => srows df <> []) dfs /\
  pairwise_disjoint dfs /\
  (forall r, yielded dfs r <-> In r (rows t)).
Proof.
  intros Hc Ht Hg Hfree Hnull keys dfs.
  assert (Hlen : forall k, In k keys -> List.length k = List.length ix).
  { intros k Hk. apply (@group_keys_length t ix k Hk). }
  split; [|split; [|split; [|split; [|split; [|split]]]]].
  - intros fuel Hf.
    apply (@drain_more_fuel _ iter_group (Datatypes.S (List.length keys)));
      [|discriminate|lia].
    apply group_run; assumption.
  - apply sort_keys_sorted.
  - apply NoDup_group_keys.
  - intro k. apply In_group_keys.
  - apply Forall_forall. intros df Hdf. apply in_map_iff in Hdf as (k & <- & Hk).
    apply In_group_keys in Hk as (r & Hr & <-).
    intro Hnil.
    assert (Hin : In r (srows (group_slice t ix (key_of ix r)))).
    { apply In_group_slice. split; [exact Hr|]. apply key_matches_self, Hnull, Hr. }
    rewrite Hnil in Hin. exact Hin.
  - intros j1 j2 df1 df2 r H1 H2 Hne Hr1 Hr2.
    unfold dfs in H1, H2. rewrite nth_error_map in H1, H2.
    destruct (nth_error keys j1) as [k1|] eqn:E1; [|discriminate].
    destruct (nth_error keys j2) as [k2|] eqn:E2; [|discriminate].
    cbn in H1, H2. inversion H1; subst df1. inversion H2; subst df2.
    apply In_group_slice in Hr1 as [_ M1]. apply In_group_slice in Hr2 as [_ M2].
    apply key_matches_own in M1; [|apply Hlen; eapply nth_error_In; eassumption].
    apply key_matches_own in M2; [|apply Hlen; eapply nth_error_In; eassumption].
    apply Hne.
    apply (proj1 (NoDup_nth_error keys) (NoDup_group_keys t ix) j1 j2).
    + apply nth_error_Some. congruence.
    + congruence.
  - intro r. split.
    + intros (df & Hdf & Hr). apply in_map_iff in Hdf as (k & <- & _).
      apply In_group_slice in Hr. tauto.
    + intro Hr. exists (group_slice t ix (key_of ix r)). split.
      * apply in_map. apply In_group_keys. exists r. split; [exact Hr|reflexivity].
      * apply In_group_slice. split; [exact Hr|]. apply key_matches_self, Hnull, Hr.
Qed.

(** * Further properties of the code *)

(** ** The session: normal exit and use outside a block *)

Lemma commit_close_live (st : state) :
  live st ->
  exists st', __exit__ None st = (None, st') /\ disk st' = work_of st /\
              work_of st' = work_of st /\
              option_map is_open (conn st') = Some false /\
              option_map in_txn (conn st') = Some false.
Proof.
  intros (h & Hc & Ho & Ht).
  unfold __exit__, conn_commit, conn_close, the_conn, work_of, set_conn.
  rewrite Hc, Ho. cbn. rewrite Ht. cbn.
  eexists. split; [reflexivity|]. cbn. repeat split.
Qed.

(** A block whose body raises nowhere, with any number of [regfn] calls
    in it, ends without an exception: every write of the body is durable,
    in order, and the connection is closed.  This holds from any starting
    state, also one left behind by an earlier block. *)
Theorem session_commits (body : list action) (st : state) :
  forallb (fun a => negb (is_raise a)) body = true ->
  let out := with_session body st in
  fst out = None /\
  visible (snd out) = apply_writes body (install_js (disk st)) /\
  work_of (snd out) = visible (snd out) /\
  option_map is_open (conn (snd out)) = Some false.
Proof.
  intros Hb out. subst out. unfold with_session.
  destruct (enter_live st) as (st1 & E1 & L1 & D1 & W1 & _). rewrite E1.
  destruct (run_body_no_raise body L1 Hb) as (st2 & E2 & L2 & W2). rewrite E2.
  destruct (commit_close_live L2) as (st3 & E3 & D3 & W3 & O3 & _). rewrite E3.
  cbn [fst snd]. unfold visible. rewrite W3, D3, W2, W1. repeat split. exact O3.
Qed.

Lemma session_commits_witness :
  let out := with_session [AWrite (add_table "a"); ARegfn "f"; AWrite (add_table "b")] st0 in
  fst out = None /\ map fst (tables (visible (snd out))) = ["b"; "a"].
Proof.
  intro out.
  destruct (@session_commits [AWrite (add_table "a"); ARegfn "f"; AWrite (add_table "b")]
              st0 eq_refl) as (H1 & H2 & _).
  split; [exact H1|]. subst out. rewrite H2. reflexivity.
Defined.

(** On a [Connection] that was never entered [self.conn] is [None]:
    [regfn], [push] and the first [next] of every iterator fail with an
    attribute error, and the database is not touched (the group and the
    window iterator have drawn their token by then). *)
Theorem outside_block_attribute_error (st : state) :
  conn st = None ->
  (forall f, regfn f st = Raised none_error) /\
  (forall df tn, push df tn st = (Raised none_error, st)) /\
  (forall tn k, iter_chunk (ChunkStart tn k) st = (Raised none_error, st)) /\
  (forall tn cols,
     iter_group (GroupStart tn (ColList cols)) st = (Raised none_error, bump st)) /\
  (forall tn refcol ws ss start end_,
     iter_window (WindowStart tn refcol ws ss start end_) st =
     (Raised none_error, bump st)).
Proof.
  intro Hc.
  assert (Ht : the_conn st = Raised none_error) by (unfold the_conn; now rewrite Hc).
  assert (Hb : the_conn (bump st) = Raised none_error) by (rewrite the_conn_bump; exact Ht).
  split; [|split; [|split; [|split]]].
  - intro f. unfold regfn, conn_commit. rewrite Ht. reflexivity.
  - intros df tn. unfold push, bindM, query. rewrite Ht. reflexivity.
  - intros tn k. cbn [iter_chunk]. unfold bindM, query. rewrite Ht. reflexivity.
  - intros tn cols. cbn [iter_group]. unfold bindM at 1. unfold uuid4 at 1.
    change (mkState (disk st) (conn st) (N.succ (uuid_seed st))) with (bump st).
    unfold bindM at 1. unfold execute, run_write. rewrite Hb. reflexivity.
  - intros tn refcol ws ss start end_. cbn [iter_window]. unfold bindM at 1.
    unfold uuid4 at 1.
    change (mkState (disk st) (conn st) (N.succ (uuid_seed st))) with (bump st).
    unfold bindM at 1. unfold execute, run_write. rewrite Hb. reflexivity.
Qed.

Lemma outside_block_attribute_error_witness :
  push (mkSlice ["a"] []) "foo" st0 = (Raised none_error, st0).
Proof.
  destruct (@outside_block_attribute_error st0 eq_refl) as (_ & Hpush & _).
  apply Hpush.
Defined.

(** ** [iter_group]: the edges *)

Lemma iter_group_partition_witness :
  exists dfs st',
    drain iter_group 10 (GroupStart "emp" (ColList ["deptno"; "job"]))
          (in_session emp_store) = (dfs, Exhausted, st') /\
    Forall (fun df => srows df <> []) dfs /\ pairwise_disjoint dfs /\
    (forall r, yielded dfs r <-> In r (rows emp)).
Proof.
  assert (Hnull : null_free [7%nat; 2%nat] emp).
  { intros r Hr. cbn in Hr.
    repeat (destruct Hr as [<-|Hr]; [repeat constructor; discriminate|]).
    contradiction. }
  pose proof (@iter_group_partition (in_session emp_store)
                (mkHandle emp_store true true [] []) "emp" emp
                ["deptno"; "job"] [7%nat; 2%nat]
                eq_refl eq_refl eq_refl eq_refl Hnull) as H.
  cbv zeta in H. destruct H as (Hrun & _ & _ & _ & Hne & Hdis & Hcov).
  eexists _, _. split; [apply Hrun; vm_compute; lia|].
  split; [exact Hne|]. split; [exact Hdis|exact Hcov].
Defined.

(** Over a table without rows the group iterator, unlike the other two,
    ends normally: it yields nothing and drops its index. *)
Theorem iter_group_empty_table (st : state) (h : handle) (tn : string) (t : table)
  (cols : list string) (ix : list nat) :
  the_conn st = Ok h -> find_table tn (tables (work h)) = Some t ->
  get_cols cols t = Ok ix ->
  index_free (next_index_name st) (work h) ->
  rows t = [] ->
  forall fuel, (0 < fuel)%nat ->
  drain iter_group fuel (GroupStart tn (ColList cols)) st =
    ([], Exhausted, after_write h (work h) (bump st)) /\
  work_of (after_write h (work h) (bump st)) = work_of st.
Proof.
  intros Hc Ht Hg Hfree Hrows fuel Hf.
  pose proof (@group_run st h tn t cols ix Hc Ht Hg Hfree) as Hrun.
  assert (Hk : group_keys t ix = []) by (unfold group_keys; rewrite Hrows; reflexivity).
  rewrite Hk in Hrun. cbn [List.length map] in Hrun.
  split.
  - apply (@drain_more_fuel _ iter_group 1); [exact Hrun|discriminate|lia].
  - rewrite work_of_after_write. symmetry. apply work_of_conn, Hc.
Qed.

Lemma iter_group_empty_table_witness :
  drain iter_group 1 (GroupStart "t" (ColList ["a"]))
        (in_session (mkStore [("t", mkTable ["a"] [])] [] [])) =
  ([], Exhausted,
   after_write (mkHandle (mkStore [("t", mkTable ["a"] [])] [] []) true true [] [])
               (mkStore [("t", mkTable ["a"] [])] [] [])
               (bump (in_session (mkStore [("t", mkTable ["a"] [])] [] [])))).
Proof.
  apply (@iter_group_empty_table
           (in_session (mkStore [("t", mkTable ["a"] [])] [] []))
           (mkHandle (mkStore [("t", mkTable ["a"] [])] [] []) true true [] [])
           "t" (mkTable ["a"] []) ["a"] [0%nat] eq_refl eq_refl eq_refl eq_refl eq_refl).
  lia.
Defined.

Lemma execute_fails (st : state) (h : handle) (f : store -> result store) (e : exn) :
  the_conn st = Ok h -> f (work h) = Raised e -> execute f st = (Raised e, st).
Proof.
  intros Hc Hf. unfold execute, run_write. rewrite Hc. cbn. rewrite Hf. reflexivity.
Qed.

(** A wrong argument stops the group iterator at its first [next]: a
    [columns] that is no list raises the type error before anything is
    sent to the engine; an unknown table, an empty list of columns or an
    unknown column makes [CREATE INDEX] fail, and the store is as before. *)
Theorem iter_group_bad_arguments (st : state) (h : handle) (tn : string) :
  the_conn st = Ok h ->
  iter_group (GroupStart tn ColOther) st =
    (Raised (TypeError "'columns' must be a list"), st) /\
  (forall cols,
     find_table tn (tables (work h)) = None ->
     iter_group (GroupStart tn (ColList cols)) st = (Raised (no_table tn), bump st)) /\
  (forall t,
     find_table tn (tables (work h)) = Some t ->
     iter_group (GroupStart tn (ColList [])) st = (Raised syntax_error, bump st) /\
     forall cols, cols <> [] -> col_indexes cols (header t) = None ->
       iter_group (GroupStart tn (ColList cols)) st = (Raised no_column, bump st)) /\
  work_of (bump st) = work_of st.
Proof.
  intro Hc.
  assert (Hstep : forall cols e,
            sql_create_index (next_index_name st) tn cols (work h) = Raised e ->
            iter_group (GroupStart tn (ColList cols)) st = (Raised e, bump st)).
  { intros cols e He. cbn [iter_group]. unfold bindM at 1. unfold uuid4 at 1.
    change (mkState (disk st) (conn st) (N.succ (uuid_seed st))) with (bump st).
    change ("tempIndex" ++ uuid_str (uuid_seed st))%string with (next_index_name st).
    unfold bindM at 1.
    rewrite (@execute_fails (bump st) h _ e); [reflexivity|exact Hc|exact He]. }
  split; [reflexivity|]. split; [|split; [|reflexivity]].
  - intros cols Hn. apply Hstep. unfold sql_create_index, get_table.
    rewrite Hn. reflexivity.
  - intros t Ht. split.
    + apply Hstep. unfold sql_create_index, get_table. rewrite Ht. reflexivity.
    + intros cols Hne Hcols. apply Hstep. unfold sql_create_index, get_table.
      rewrite Ht. cbn [bind]. unfold get_cols. destruct cols; [congruence|].
      rewrite Hcols. reflexivity.
Qed.

Lemma iter_group_bad_arguments_witness :
  iter_group (GroupStart "emp" (ColList ["salary"])) (in_session emp_store) =
  (Raised no_column, bump (in_session emp_store)).
Proof.
  destruct (@iter_group_bad_arguments (in_session emp_store)
              (mkHandle emp_store true true [] []) "emp" eq_refl)
    as (_ & _ & Hcols & _).
  destruct (Hcols emp eq_refl) as (_ & H).
  apply H; [discriminate|reflexivity].
Defined.

(** The [for] loop stopped after [j] keys: the generator is suspended and
    the state is the one the loop runs in. *)
Lemma group_for_partial (st : state) (idx tn : string) (t : table)
  (cols : list string) (ix : list nat) :
  sees st tn t -> get_cols cols t = Ok ix ->
  forall groups j,
  (forall k, In k groups -> List.length k = List.length cols) ->
  (j <= List.length groups)%nat ->
  drain iter_group j (GroupFor idx tn cols groups) st =
  (map (group_slice t ix) (firstn j groups), OutOfFuel, st).
Proof.
  intros Hs Hg. induction groups as [|k groups IH]; intros j Hlen Hj.
  - cbn in Hj. assert (j = 0%nat) by lia. subst j. reflexivity.
  - destruct j as [|j]; [reflexivity|]. cbn [List.length] in Hj.
    cbn [drain iter_group group_for]. unfold bindM at 1.
    rewrite (@select_where_eq_sees st tn t cols ix k Hs Hg) by (apply Hlen; now left).
    unfold ret. rewrite IH; [|intros k' Hk'; apply Hlen; now right|lia].
    reflexivity.
Qed.

(** A caller that stops before the group iterator is exhausted leaves the
    index behind: after any number of slices short of the end the
    generator is still suspended and the index is in the store the
    session works on. *)
Theorem iter_group_abandoned_keeps_index (st : state) (h : handle) (tn : string)
  (t : table) (cols : list string) (ix : list nat) (j : nat) :
  the_conn st = Ok h -> find_table tn (tables (work h)) = Some t ->
  get_cols cols t = Ok ix ->
  index_free (next_index_name st) (work h) ->
  (0 < j <= List.length (group_keys t ix))%nat ->
  let idx := mkIndex (next_index_name st) tn cols in
  let st1 := after_write h (add_index idx (work h)) (bump st) in
  drain iter_group j (GroupStart tn (ColList cols)) st =
    (map (group_slice t ix) (firstn j (group_keys t ix)), OutOfFuel, st1) /\
  indexes (work_of st1) = idx :: indexes (work_of st).
Proof.
  intros Hc Ht Hg Hfree Hj idx st1.
  assert (Hs1 : sees st1 tn t).
  { eexists. split; [apply the_conn_after_write|exact Ht]. }
  assert (Hlen : forall k, In k (group_keys t ix) -> List.length k = List.length cols).
  { intros k Hk. rewrite (@group_keys_length t ix k Hk). eapply get_cols_length, Hg. }
  pose proof (@group_first st h tn t cols ix Hc Ht Hg Hfree) as Hfirst.
  fold idx st1 in Hfirst.
  split.
  - destruct j as [|j]; [lia|].
    destruct (group_keys t ix) as [|k ks] eqn:Ek; [cbn in Hj; lia|].
    cbn [List.length] in Hj. cbn [drain]. rewrite Hfirst.
    cbn [group_for]. unfold bindM at 1.
    rewrite (@select_where_eq_sees st1 tn t cols ix k Hs1 Hg) by (apply Hlen; now left).
    unfold ret.
    rewrite (@group_for_partial st1 (next_index_name st) tn t cols ix Hs1 Hg ks j);
      [reflexivity|intros k' Hk'; apply Hlen; now right|lia].
  - unfold st1. rewrite work_of_after_write. cbn [add_index indexes].
    rewrite (work_of_conn _ Hc). reflexivity.
Qed.

Lemma iter_group_abandoned_keeps_index_witness :
  exists dfs st1,
    drain iter_group 3 (GroupStart "emp" (ColList ["deptno"])) (in_session emp_store) =
      (dfs, OutOfFuel, st1) /\
    map index_table (indexes (work_of st1)) = ["emp"].
Proof.
  pose proof (@iter_group_abandoned_keeps_index (in_session emp_store)
                (mkHandle emp_store true true [] []) "emp" emp ["deptno"] [7%nat] 3
                eq_refl eq_refl eq_refl eq_refl) as H.
  cbv zeta in H. destruct H as (Hrun & Hidx); [vm_compute; lia|].
  eexists _, _. split; [exact Hrun|]. rewrite Hidx. reflexivity.
Defined.

(** ** [iter_window]: the edges *)

(** The first [next] of the window iterator up to the loop test. *)
Lemma window_first (st : state) (h : handle) (tn refcol : string) (t : table)
  (i : nat) (S T a b : Z) (ss start end_ : value) :
  the_conn st = Ok h -> find_table tn (tables (work h)) = Some t ->
  col_index refcol (header t) = Some i ->
  index_free (next_index_name st) (work h) ->
  (if negb (truthy ss) then VInt S else ss) = VInt T ->
  py_or start (fst (column_bounds i t)) = VInt a ->
  py_or end_ (snd (column_bounds i t)) = VInt b ->
  iter_window (WindowStart tn refcol (VInt S) ss start end_) st =
  window_while (next_index_name st) tn refcol (VInt S) (VInt T) (VInt b)
               (VInt a) (VInt (a + S))
    (after_write h (add_index (mkIndex (next_index_name st) tn [refcol]) (work h))
                 (bump st)).
Proof.
  intros Hc Ht Hi Hfree Hss Ha Hb.
  set (idx := mkIndex (next_index_name st) tn [refcol]).
  set (st1 := after_write h (add_index idx (work h)) (bump st)).
  assert (Hs1 : sees st1 tn t).
  { eexists. split; [apply the_conn_after_write|exact Ht]. }
  cbn [iter_window]. rewrite Hss.
  unfold bindM at 1. unfold uuid4 at 1.
  change (mkState (disk st) (conn st) (N.succ (uuid_seed st))) with (bump st).
  change ("tempIndex" ++ uuid_str (uuid_seed st))%string with (next_index_name st).
  unfold bindM at 1.
  rewrite (@create_index_ok (bump st) h tn t [refcol] [i] (next_index_name st) Hc Ht
             (get_cols_one _ _ Hi) Hfree).
  fold idx st1. unfold bindM at 1. rewrite (min_max_sees _ Hs1 Hi).
  rewrite Ha, Hb. unfold bindM at 1, lift, py_add. reflexivity.
Qed.

Lemma window_resume_partial (st : state) (idx tn refcol : string) (t : table)
  (i : nat) (S T b : Z) :
  sees st tn t -> col_index refcol (header t) = Some i -> 0 < T ->
  forall (j : nat) (cs : Z),
  cs + Z.of_nat j * T <= b ->
  drain iter_window j
        (WindowResume idx tn refcol (VInt S) (VInt T) (VInt b) (VInt cs)) st =
  (window_slices t i S T j (cs + T), OutOfFuel, st).
Proof.
  intros Hs Hi HT. induction j as [|j IH]; intros cs Hj; [reflexivity|].
  cbn [drain iter_window]. unfold bindM at 1 2, lift, py_add.
  rewrite (@window_while_yield st idx tn refcol t i S T b (cs + T) (cs + T + S) Hs Hi)
    by nia.
  rewrite IH by nia. reflexivity.
Qed.

(** A caller that stops before the window iterator is exhausted leaves
    the index behind, as with the group iterator. *)
Theorem iter_window_abandoned_keeps_index (st : state) (h : handle)
  (tn refcol : string) (t : table) (i : nat) (S T a b : Z)
  (ss start end_ : value) (j : nat) :
  the_conn st = Ok h -> find_table tn (tables (work h)) = Some t ->
  col_index refcol (header t) = Some i ->
  index_free (next_index_name st) (work h) ->
  (if negb (truthy ss) then VInt S else ss) = VInt T -> 0 < T ->
  py_or start (fst (column_bounds i t)) = VInt a ->
  py_or end_ (snd (column_bounds i t)) = VInt b ->
  (0 < j <= ticks a b T)%nat ->
  let idx := mkIndex (next_index_name st) tn [refcol] in
  let st1 := after_write h (add_index idx (work h)) (bump st) in
  drain iter_window j (WindowStart tn refcol (VInt S) ss start end_) st =
    (window_slices t i S T j a, OutOfFuel, st1) /\
  indexes (work_of st1) = idx :: indexes (work_of st).
Proof.
  intros Hc Ht Hi Hfree Hss HT Ha Hb Hj idx st1.
  assert (Hs1 : sees st1 tn t).
  { eexists. split; [apply the_conn_after_write|exact Ht]. }
  pose proof (@window_first st h tn refcol t i S T a b ss start end_
                Hc Ht Hi Hfree Hss Ha Hb) as Hfirst.
  fold idx st1 in Hfirst.
  assert (Hab : a <= b).
  { unfold ticks in Hj. destruct (Z.leb_spec a b); lia. }
  destruct (ticks_bounds HT Hab) as (m & Hm & Hbounds). rewrite Hm in Hj.
  split.
  - destruct j as [|j]; [lia|]. cbn [drain]. rewrite Hfirst.
    rewrite (@window_while_yield st1 (next_index_name st) tn refcol t i S T b a
               (a + S) Hs1 Hi Hab).
    rewrite (@window_resume_partial st1 (next_index_name st) tn refcol t i S T b
               Hs1 Hi HT j a) by nia.
    reflexivity.
  - unfold st1. rewrite work_of_after_write. cbn [add_index indexes].
    rewrite (work_of_conn _ Hc). reflexivity.
Qed.

Lemma iter_window_abandoned_keeps_index_witness :
  exists dfs st1,
    drain iter_window 2 (WindowStart "emp" "hiredate" (VInt 10000) VNull VNull VNull)
          (in_session emp_store) = (dfs, OutOfFuel, st1) /\
    map index_cols (indexes (work_of st1)) = [["hiredate"]].
Proof.
  pose proof (@iter_window_abandoned_keeps_index (in_session emp_store)
                (mkHandle emp_store true true [] []) "emp" "hiredate" emp 4%nat
                10000 10000 20051217 20080112 VNull VNull VNull 2
                eq_refl eq_refl eq_refl eq_refl eq_refl ltac:(lia) eq_refl eq_refl) as H.
  cbv zeta in H. destruct H as (Hrun & Hidx); [vm_compute; lia|].
  eexists _, _. split; [exact Hrun|]. rewrite Hidx. reflexivity.
Defined.

Lemma window_resume_diverges (st : state) (idx tn refcol : string) (t : table)
  (i : nat) (S T b : Z) :
  sees st tn t -> col_index refcol (header t) = Some i -> T <= 0 ->
  forall (fuel : nat) (cs : Z), cs <= b ->
  exists dfs,
    drain iter_window fuel
          (WindowResume idx tn refcol (VInt S) (VInt T) (VInt b) (VInt cs)) st =
      (dfs, OutOfFuel, st) /\
    List.length dfs = fuel.
Proof.
  intros Hs Hi HT. induction fuel as [|fuel IH]; intros cs Hcs.
  - exists []. split; reflexivity.
  - destruct (IH (cs + T) ltac:(lia)) as (dfs & Hd & Hl).
    eexists (_ :: dfs). cbn [drain iter_window]. unfold bindM at 1 2, lift, py_add.
    rewrite (@window_while_yield st idx tn refcol t i S T b (cs + T) (cs + T + S) Hs Hi)
      by lia.
    rewrite Hd. split; [reflexivity|]. cbn. now rewrite Hl.
Qed.

(** With a step that is not positive the window iterator never ends:
    whatever the number of [next] calls, each one yields a slice.  This is
    what a [window_size] of 0 with no [step_size] gives, since the step
    then falls back to the window size. *)
Theorem iter_window_nonpositive_step_diverges (st : state) (h : handle)
  (tn refcol : string) (t : table) (i : nat) (S T a b : Z) (ss start end_ : value) :
  the_conn st = Ok h -> find_table tn (tables (work h)) = Some t ->
  col_index refcol (header t) = Some i ->
  index_free (next_index_name st) (work h) ->
  (if negb (truthy ss) then VInt S else ss) = VInt T -> T <= 0 ->
  py_or start (fst (column_bounds i t)) = VInt a ->
  py_or end_ (snd (column_bounds i t)) = VInt b ->
  a <= b ->
  forall fuel, exists dfs st',
    drain iter_window fuel (WindowStart tn refcol (VInt S) ss start end_) st =
      (dfs, OutOfFuel, st') /\
    List.length dfs = fuel.
Proof.
  intros Hc Ht Hi Hfree Hss HT Ha Hb Hab fuel.
  destruct fuel as [|fuel]; [exists [], st; split; reflexivity|].
  set (st1 := after_write h (add_index (mkIndex (next_index_name st) tn [refcol]) (work h))
                          (bump st)).
  assert (Hs1 : sees st1 tn t).
  { eexists. split; [apply the_conn_after_write|exact Ht]. }
  destruct (@window_resume_diverges st1 (next_index_name st) tn refcol t i S T b
              Hs1 Hi HT fuel a Hab) as (dfs & Hd & Hl).
  eexists (_ :: dfs), st1. cbn [drain].
  rewrite (@window_first st h tn refcol t i S T a b ss start end_ Hc Ht Hi Hfree Hss Ha Hb).
  fold st1.
  rewrite (@window_while_yield st1 (next_index_name st) tn refcol t i S T b a (a + S)
             Hs1 Hi Hab).
  rewrite Hd. split; [reflexivity|]. cbn. now rewrite Hl.
Qed.

Lemma iter_window_nonpositive_step_diverges_witness :
  exists dfs st',
    drain iter_window 50 (WindowStart "emp" "hiredate" (VInt 0) VNull VNull VNull)
          (in_session emp_store) = (dfs, OutOfFuel, st') /\
    List.length dfs = 50%nat.
Proof.
  apply (@iter_window_nonpositive_step_diverges (in_session emp_store)
           (mkHandle emp_store true true [] []) "emp" "hiredate" emp 4%nat
           0 0 20051217 20080112 VNull VNull VNull
           eq_refl eq_refl eq_refl eq_refl eq_refl ltac:(lia) eq_refl eq_refl
           ltac:(lia)).
Defined.



Lemma insert_by_ext {A} (leb1 leb2 : A -> A -> bool) (x : A) (l : list A) :
  (forall y, In y l -> leb1 x y = leb2 x y) ->
  insert_by leb1 x l = insert_by leb2 x l.
Proof.
  induction l as [|y l IH]; intro H; cbn; [reflexivity|].
  rewrite (H y (or_introl eq_refl)). destruct (leb2 x y); [reflexivity|].
  f_equal. apply IH. intros z Hz. apply H. now right.
Qed.

Lemma sort_by_ext {A} (leb1 leb2 : A -> A -> bool) (l : list A) :
  (forall x y, In x l -> In y l -> leb1 x y = leb2 x y) ->
  sort_by leb1 l = sort_by leb2 l.
Proof.
  induction l as [|x l IH]; intro H; cbn; [reflexivity|].
  rewrite IH by (intros; apply H; now right).
  apply insert_by_ext. intros y Hy. apply sort_by_In in Hy.
  apply H; [now left|now right].
Qed.

(** A window slice comes in ascending order of the reference column, as
    [ORDER BY] asks, and holds rows with an integer reference value
    only. *)
Lemma window_slice_sorted (t : table) (i : nat) (lo hi : Z) :
  StronglySorted (key_le (ref_key i)) (srows (window_slice t i lo hi)) /\
  Forall (fun r => cell i r = VInt (ref_key i r) /\ lo <= ref_key i r < hi)
         (srows (window_slice t i lo hi)).
Proof.
  unfold window_slice. cbn [srows].
  set (l := filter (fun r => in_window (cell i r) (VInt lo) (VInt hi)) (rows t)).
  assert (Hl : forall r, In r l -> cell i r = VInt (ref_key i r) /\ lo <= ref_key i r < hi).
  { intros r Hr. apply filter_In in Hr as [_ Hr]. apply in_window_ref in Hr.
    destruct Hr as (z & Hz & Hrange). unfold ref_key. rewrite Hz. auto. }
  assert (E : sort_by (by_cell i) l = sort_by (by_key (ref_key i)) l).
  { apply sort_by_ext. intros x y Hx Hy. unfold by_cell, by_key.
    destruct (Hl x Hx) as [-> _]. destruct (Hl y Hy) as [-> _]. reflexivity. }
  rewrite E. split; [apply sort_by_sorted|].
  apply Forall_forall. intros r Hr. apply sort_by_In in Hr. apply Hl, Hr.
Qed.

(** Every slice the window iterator yields is sorted by the reference
    column. *)
Theorem iter_window_slices_sorted (st : state) (h : handle) (tn refcol : string)
  (t : table) (i : nat) (S T a b : Z) (ss start end_ : value) :
  the_conn st = Ok h -> find_table tn (tables (work h)) = Some t ->
  col_index refcol (header t) = Some i ->
  index_free (next_index_name st) (work h) ->
  (if negb (truthy ss) then VInt S else ss) = VInt T -> 0 < T ->
  py_or start (fst (column_bounds i t)) = VInt a ->
  py_or end_ (snd (column_bounds i t)) = VInt b ->
  Forall (fun df => StronglySorted (key_le (ref_key i)) (srows df) /\
                    columns df = header t)
         (fst (fst (drain iter_window (Datatypes.S (ticks a b T))
                          (WindowStart tn refcol (VInt S) ss start end_) st))).
Proof.
  intros Hc Ht Hi Hfree Hss HT Ha Hb.
  rewrite (@window_run st h tn refcol t i S T a b ss start end_) by assumption.
  cbn [fst]. apply Forall_forall. intros df Hdf.
  apply In_nth_error in Hdf as (j & Hj).
  assert (Hlt : (j < ticks a b T)%nat).
  { rewrite <- (length_window_slices t i S T (ticks a b T) a).
    apply nth_error_Some. congruence. }
  rewrite nth_window_slices in Hj by exact Hlt. inversion Hj; subst.
  split; [apply window_slice_sorted|reflexivity].
Qed.

Lemma iter_window_slices_sorted_witness :
  Forall (fun df => StronglySorted (key_le (ref_key 4)) (srows df) /\
                    columns df = header emp)
         (fst (fst (drain iter_window 4
                          (WindowStart "emp" "hiredate" (VInt 10000) VNull VNull VNull)
                          (in_session emp_store)))).
Proof.
  apply (@iter_window_slices_sorted (in_session emp_store)
           (mkHandle emp_store true true [] []) "emp" "hiredate" emp 4%nat
           10000 10000 20051217 20080112 VNull VNull VNull
           eq_refl eq_refl eq_refl eq_refl eq_refl ltac:(lia) eq_refl eq_refl).
Defined.

(** The minimum and the maximum of a column of integers and [NULL]s:
    [NULL] when there is no integer, else bounds of the integers. *)
Lemma int_bounds (vs : list value) :
  Forall (fun v => v = VNull \/ exists z, v = VInt z) vs ->
  (fold_right v_min VNull vs = VNull /\ fold_right v_max VNull vs = VNull /\
   forall z, ~ In (VInt z) vs) \/
  (exists lo hi, fold_right v_min VNull vs = VInt lo /\
                 fold_right v_max VNull vs = VInt hi /\
                 forall z, In (VInt z) vs -> lo <= z <= hi).
Proof.
  induction 1 as [|v vs Hv Hvs IH].
  - left. cbn. split; [reflexivity|]. split; [reflexivity|]. intros z [].
  - cbn [fold_right].
    destruct IH as [(Hmin & Hmax & Hno)|(lo & hi & Hmin & Hmax & Hb)];
      rewrite Hmin, Hmax; destruct Hv as [->|(z & ->)]; cbn.
    + left. split; [reflexivity|]. split; [reflexivity|].
      intros z [E|E]; [discriminate|]. apply (Hno z E).
    + right. exists z, z. split; [reflexivity|]. split; [reflexivity|].
      intros z' [E|E]; [inversion E; lia|]. exfalso. apply (Hno z' E).
    + right. exists lo, hi. split; [reflexivity|]. split; [reflexivity|].
      intros z' [E|E]; [discriminate|]. apply Hb, E.
    + right. destruct (Z.leb_spec z lo), (Z.leb_spec z hi).
      * exists z, hi. split; [reflexivity|]. split; [reflexivity|].
        intros z' [E|E]; [inversion E; lia|]. specialize (Hb z' E). lia.
      * exists z, z. split; [reflexivity|]. split; [reflexivity|].
        intros z' [E|E]; [inversion E; lia|]. specialize (Hb z' E). lia.
      * exists lo, hi. split; [reflexivity|]. split; [reflexivity|].
        intros z' [E|E]; [inversion E; lia|]. specialize (Hb z' E). lia.
      * exists lo, z. split; [reflexivity|]. split; [reflexivity|].
        intros z' [E|E]; [inversion E; lia|]. specialize (Hb z' E). lia.
Qed.

Lemma column_bounds_int (i : nat) (t : table) (r0 : row) (z0 : Z) :
  int_column i t -> In r0 (rows t) -> cell i r0 = VInt z0 ->
  exists lo hi, column_bounds i t = (VInt lo, VInt hi) /\
                forall r z, In r (rows t) -> cell i r = VInt z -> lo <= z <= hi.
Proof.
  intros Hcol Hr0 Hz0. unfold column_bounds.
  assert (Hvs : Forall (fun v => v = VNull \/ exists z, v = VInt z)
                       (map (cell i) (rows t))).
  { apply Forall_forall. intros v Hv. apply in_map_iff in Hv as (r & <- & Hr).
    unfold int_column in Hcol. rewrite Forall_forall in Hcol. apply Hcol, Hr. }
  destruct (int_bounds Hvs) as [(_ & _ & Hno)|(lo & hi & Hmin & Hmax & Hb)].
  - exfalso. apply (Hno z0). rewrite <- Hz0. apply in_map, Hr0.
  - exists lo, hi. rewrite Hmin, Hmax. split; [reflexivity|].
    intros r z Hr Hz. apply Hb. rewrite <- Hz. apply in_map, Hr.
Qed.

(** With its default arguments (no step, no start, no end) the window
    iterator partitions the rows that have a reference value: the slices
    are pairwise disjoint and a row is in one of them exactly when its
    reference value is not [NULL]. *)
Theorem iter_window_default_partition (st : state) (h : handle)
  (tn refcol : string) (t : table) (i : nat) (S : Z) (r0 : row) (z0 : Z) :
  the_conn st = Ok h -> find_table tn (tables (work h)) = Some t ->
  col_index refcol (header t) = Some i ->
  index_free (next_index_name st) (work h) ->
  0 < S -> int_column i t -> In r0 (rows t) -> cell i r0 = VInt z0 ->
  exists fuel dfs st',
    drain iter_window fuel (WindowStart tn refcol (VInt S) VNull VNull VNull) st =
      (dfs, Exhausted, st') /\
    pairwise_disjoint dfs /\
    (forall r, yielded dfs r <-> In r (rows t) /\ exists z, cell i r = VInt z).
Proof.
  intros Hc Ht Hi Hfree HS Hcol Hr0 Hz0.
  destruct (@column_bounds_int i t r0 z0 Hcol Hr0 Hz0) as (lo & hi & Hb & Hall).
  assert (Hlohi : lo <= hi) by (specialize (Hall r0 z0 Hr0 Hz0); lia).
  exists (Datatypes.S (ticks lo hi S)), (window_slices t i S S (ticks lo hi S) lo).
  eexists. split.
  - assert (Ha : py_or VNull (fst (column_bounds i t)) = VInt lo) by (rewrite Hb; reflexivity).
    assert (Hb' : py_or VNull (snd (column_bounds i t)) = VInt hi) by (rewrite Hb; reflexivity).
    exact (@window_run st h tn refcol t i S S lo hi VNull VNull VNull
             Hc Ht Hi Hfree eq_refl HS Ha Hb').
  - split; [apply window_disjoint, HS|].
    intro r. rewrite (@window_union t i S lo (ticks lo hi S) r HS).
    destruct (ticks_bounds HS Hlohi) as (m & Hm & Hbounds). rewrite Hm.
    split.
    + intros (Hin & z & Hz & _). split; [exact Hin|]. exists z. exact Hz.
    + intros (Hin & z & Hz). split; [exact Hin|]. exists z. split; [exact Hz|].
      specialize (Hall r z Hin Hz). rewrite Nat2Z.inj_succ. lia.
Qed.

Lemma iter_window_default_partition_witness :
  exists fuel dfs st',
    drain iter_window fuel (WindowStart "emp" "hiredate" (VInt 10000) VNull VNull VNull)
          (in_session emp_store) = (dfs, Exhausted, st') /\
    pairwise_disjoint dfs /\
    (forall r, yielded dfs r <-> In r (rows emp) /\ exists z, cell 4 r = VInt z).
Proof.
  assert (Hcol : int_column 4 emp).
  { unfold int_column. cbn.
    repeat (apply Forall_cons; [right; eexists; reflexivity|]). apply Forall_nil. }
  apply (@iter_window_default_partition (in_session emp_store)
           (mkHandle emp_store true true [] []) "emp" "hiredate" emp 4%nat 10000
           (emp_row 0 7369 "SMITH" "CLERK" (VInt 7902) 20051217 800 VNull 20) 20051217
           eq_refl eq_refl eq_refl eq_refl ltac:(lia) Hcol (or_introl eq_refl) eq_refl).
Defined.

(** ** [iter_chunk]: the number and the size of the chunks *)

Lemma min_max_ints_in (zs : list Z) :
  zs <> [] ->
  exists lo hi,
    fold_right v_min VNull (map VInt zs) = VInt lo /\
    fold_right v_max VNull (map VInt zs) = VInt hi /\
    In lo zs /\ In hi zs /\ Forall (fun z => lo <= z <= hi) zs.
Proof.
  induction zs as [|z zs IH]; [congruence|]. intros _.
  destruct zs as [|z' zs].
  - exists z, z. cbn. split; [reflexivity|]. split; [reflexivity|].
    split; [now left|]. split; [now left|]. constructor; [lia|constructor].
  - destruct IH as (lo & hi & Hlo & Hhi & Ilo & Ihi & Hall); [congruence|].
    cbn [map fold_right] in *. rewrite Hlo, Hhi. cbn.
    assert (Hle : lo <= hi).
    { rewrite Forall_forall in Hall. specialize (Hall lo Ilo). lia. }
    destruct (Z.leb_spec z lo), (Z.leb_spec z hi); try (exfalso; lia).
    + exists z, hi. split; [reflexivity|]. split; [reflexivity|].
      split; [now left|]. split; [now right|]. constructor; [lia|].
      eapply Forall_impl; [|exact Hall]. cbn. intros; lia.
    + exists lo, hi. split; [reflexivity|]. split; [reflexivity|].
      split; [now right|]. split; [now right|]. constructor; [lia|exact Hall].
    + exists lo, z. split; [reflexivity|]. split; [reflexivity|].
      split; [now right|]. split; [now left|]. constructor; [lia|].
      eapply Forall_impl; [|exact Hall]. cbn. intros; lia.
Qed.

Lemma chunk_resume_slices (st : state) (tn : string) (t : table) (k e : Z) :
  sees st tn t -> 0 < k ->
  forall (m : nat) (cs : Z),
  cs + Z.of_nat m * k <= e < cs + (Z.of_nat m + 1) * k ->
  drain iter_chunk (Datatypes.S m) (ChunkResume tn (VInt k) (VInt e) (VInt cs)) st =
  (chunk_slices t k m (cs + k), Exhausted, st).
Proof.
  intros Hs Hk. induction m as [|m IH]; intros cs Hm.
  - cbn [drain iter_chunk]. unfold bindM at 1 2, lift, py_add.
    rewrite chunk_while_stop by lia. reflexivity.
  - specialize (IH (cs + k) ltac:(lia)).
    change (drain iter_chunk (Datatypes.S (Datatypes.S m))) with
      (fun g s => match iter_chunk g s with
         | (Ok (Some (df, g')), st') =>
             let '(dfs, e, st'') := drain iter_chunk (Datatypes.S m) g' st' in
             (df :: dfs, e, st'')
         | (Ok None, st') => ([], Exhausted, st')
         | (Raised e, st') => ([], Failed e, st')
         end).
    cbn beta. cbn [iter_chunk]. unfold bindM at 1 2, lift, py_add.
    rewrite (@chunk_while_yield st tn t k e (cs + k) (cs + k + k) Hs) by lia.
    rewrite IH. reflexivity.
Qed.

Lemma length_chunk_slices (t : table) (k : Z) :
  forall (n : nat) (cs : Z), List.length (chunk_slices t k n cs) = n.
Proof. induction n as [|n IH]; intro cs; cbn; [reflexivity|]. now rewrite IH. Qed.

Lemma In_chunk_slices (t : table) (k : Z) (df : slice) :
  forall (n : nat) (cs : Z), In df (chunk_slices t k n cs) ->
  exists lo, df = chunk_slice t lo (lo + k).
Proof.
  induction n as [|n IH]; intros cs H; [destruct H|].
  destruct H as [<-|H]; [exists cs; reflexivity|]. apply (IH _ H).
Qed.

(** In a list sorted by distinct keys, a range of width [hi - lo] holds at
    most [hi - lo] elements. *)
Lemma range_bounded {A} (key : A -> Z) (l : list A) :
  StronglySorted (key_le key) l -> NoDup (map key l) ->
  forall lo hi, lo <= hi ->
  Z.of_nat (List.length (filter (between key lo hi) l)) <= hi - lo.
Proof.
  induction 1 as [|x l Hs IH Hall]; intros Hnd lo hi Hle; cbn; [lia|].
  cbn in Hnd. inversion Hnd as [|? ? Hnot Hnd']; subst.
  destruct (between key lo hi x) eqn:E.
  - apply between_iff in E. cbn [List.length].
    rewrite (filter_ext_in (between key lo hi) (between key (key x + 1) hi)).
    + specialize (IH Hnd' (key x + 1) hi ltac:(lia)). lia.
    + intros y Hy. rewrite Forall_forall in Hall. specialize (Hall y Hy).
      unfold key_le in Hall.
      assert (key y <> key x).
      { intro Heq. apply Hnot. rewrite <- Heq. apply in_map, Hy. }
      unfold between.
      destruct (Z.leb_spec lo (key y)), (Z.leb_spec (key x + 1) (key y)),
        (Z.ltb_spec (key y) hi); cbn; try reflexivity; lia.
  - apply IH; assumption.
Qed.

(** The chunk iterator makes [(max - min) / size + 1] chunks, [min] and
    [max] the smallest and the largest row identifier, whatever the
    number of rows; when the identifiers are distinct no chunk holds more
    than [size] rows. *)
Theorem iter_chunk_bounded (st : state) (tn : string) (t : table) (k : Z) :
  sees st tn t -> rows t <> [] -> 0 < k ->
  exists lo hi,
    In lo (map rowid (rows t)) /\ In hi (map rowid (rows t)) /\
    Forall (fun r => lo <= rowid r <= hi) (rows t) /\
    let n := Z.to_nat ((hi - lo) / k + 1) in
    let dfs := chunk_slices t k n lo in
    drain iter_chunk (Datatypes.S n) (ChunkStart tn (VInt k)) st = (dfs, Exhausted, st) /\
    List.length dfs = n /\
    (NoDup (map rowid (rows t)) ->
     Forall (fun df => Z.of_nat (List.length (srows df)) <= k) dfs).
Proof.
  intros Hs Hne Hk.
  destruct (@min_max_ints_in (map rowid (rows t)))
    as (lo & hi & Hlo & Hhi & Ilo & Ihi & Hall).
  { destruct (rows t); [congruence|discriminate]. }
  assert (Hle : lo <= hi).
  { rewrite Forall_forall in Hall. specialize (Hall lo Ilo). lia. }
  exists lo, hi. split; [exact Ilo|]. split; [exact Ihi|]. split.
  { apply Forall_forall. intros r Hr. rewrite Forall_forall in Hall.
    apply Hall, in_map, Hr. }
  intros n dfs.
  assert (Hq : 0 <= (hi - lo) / k) by (apply Z.div_pos; lia).
  assert (Hn : n = Datatypes.S (Z.to_nat ((hi - lo) / k))).
  { unfold n. rewrite Z2Nat.inj_add by lia. rewrite Nat.add_comm. reflexivity. }
  split; [|split].
  - unfold dfs. rewrite Hn.
    change (drain iter_chunk (Datatypes.S (Datatypes.S (Z.to_nat ((hi - lo) / k))))) with
      (fun g s => match iter_chunk g s with
         | (Ok (Some (df, g')), st') =>
             let '(dfs, e, st'') :=
               drain iter_chunk (Datatypes.S (Z.to_nat ((hi - lo) / k))) g' st' in
             (df :: dfs, e, st'')
         | (Ok None, st') => ([], Exhausted, st')
         | (Raised e, st') => ([], Failed e, st')
         end).
    cbn beta. cbn [iter_chunk]. unfold bindM at 1.
    rewrite (min_max_rowid_sees Hs), Hlo, Hhi. cbn [fst snd].
    unfold bindM at 1, lift, py_add.
    rewrite (@chunk_while_yield st tn t k hi lo (lo + k) Hs) by lia.
    rewrite (@chunk_resume_slices st tn t k hi Hs Hk).
    + reflexivity.
    + rewrite Z2Nat.id by lia.
      pose proof (Z.mul_div_le (hi - lo) k Hk).
      pose proof (Z.mul_succ_div_gt (hi - lo) k Hk). lia.
  - apply length_chunk_slices.
  - intro Hnd. apply Forall_forall. intros df Hdf.
    apply In_chunk_slices in Hdf as (c & ->). unfold chunk_slice. cbn [srows].
    replace k with (c + k - c) at 2 by lia.
    apply range_bounded; [apply sort_by_sorted| |lia].
    eapply Permutation_NoDup; [|exact Hnd].
    apply Permutation_map, Permutation_sym, sort_by_perm.
Qed.

Lemma iter_chunk_bounded_witness :
  exists dfs,
    drain iter_chunk 4 (ChunkStart "emp" (VInt 5)) (in_session emp_store) =
      (dfs, Exhausted, in_session emp_store) /\
    List.length dfs = 3%nat.
Proof.
  destruct (@iter_chunk_bounded (in_session emp_store) "emp" emp 5)
    as (lo & hi & Ilo & Ihi & Hall & H).
  - exists (mkHandle emp_store true true [] []). split; reflexivity.
  - discriminate.
  - lia.
  - cbv zeta in H. destruct H as (Hrun & Hlen & _).
    assert (Hlo : lo = 0).
    { rewrite Forall_forall in Hall.
      pose proof (Hall (emp_row 0 7369 "SMITH" "CLERK" (VInt 7902) 20051217 800 VNull 20)
                       (or_introl eq_refl)) as H0. cbn in H0.
      cbn in Ilo. repeat (destruct Ilo as [<-|Ilo]; [lia|]). contradiction. }
    assert (Hhi : hi = 13).
    { rewrite Forall_forall in Hall.
      pose proof (Hall (emp_row 13 7934 "MILLER" "CLERK" (VInt 7782) 20070123 1300 VNull 10)) as H13.
      cbn in H13. specialize (H13 ltac:(auto 20)).
      cbn in Ihi. repeat (destruct Ihi as [<-|Ihi]; [lia|]). contradiction. }
    subst lo hi. eexists. split; [exact Hrun|exact Hlen].
Defined.

Lemma chunk_resume_diverges (st : state) (tn : string) (t : table) (k e : Z) :
  sees st tn t -> k <= 0 ->
  forall (fuel : nat) (cs : Z), cs <= e ->
  exists dfs,
    drain iter_chunk fuel (ChunkResume tn (VInt k) (VInt e) (VInt cs)) st =
      (dfs, OutOfFuel, st) /\
    List.length dfs = fuel.
Proof.
  intros Hs Hk. induction fuel as [|fuel IH]; intros cs Hcs.
  - exists []. split; reflexivity.
  - destruct (IH (cs + k) ltac:(lia)) as (dfs & Hd & Hl).
    eexists (_ :: dfs). cbn [drain iter_chunk]. unfold bindM at 1 2, lift, py_add.
    rewrite (@chunk_while_yield st tn t k e (cs + k) (cs + k + k) Hs) by lia.
    rewrite Hd. split; [reflexivity|]. cbn. now rewrite Hl.
Qed.

(** With a chunk size that is not positive the chunk iterator never ends
    over a table with rows: every [next] yields a slice, however many
    there have been. *)
Theorem iter_chunk_nonpositive_size_diverges (st : state) (tn : string) (t : table)
  (k : Z) :
  sees st tn t -> rows t <> [] -> k <= 0 ->
  forall fuel, exists dfs,
    drain iter_chunk fuel (ChunkStart tn (VInt k)) st = (dfs, OutOfFuel, st) /\
    List.length dfs = fuel.
Proof.
  intros Hs Hne Hk fuel.
  destruct fuel as [|fuel]; [exists []; split; reflexivity|].
  destruct (@min_max_ints (map rowid (rows t))) as (lo & hi & Hlo & Hhi & _ & Hle).
  { destruct (rows t); [congruence|discriminate]. }
  destruct (@chunk_resume_diverges st tn t k hi Hs Hk fuel lo Hle) as (dfs & Hd & Hl).
  eexists (_ :: dfs). cbn [drain iter_chunk]. unfold bindM at 1.
  rewrite (min_max_rowid_sees Hs), Hlo, Hhi. cbn [fst snd].
  unfold bindM at 1, lift, py_add.
  rewrite (@chunk_while_yield st tn t k hi lo (lo + k) Hs) by lia.
  rewrite Hd. split; [reflexivity|]. cbn. now rewrite Hl.
Qed.

Lemma iter_chunk_nonpositive_size_diverges_witness :
  exists dfs,
    drain iter_chunk 100 (ChunkStart "emp" (VInt 0)) (in_session emp_store) =
      (dfs, OutOfFuel, in_session emp_store) /\
    List.length dfs = 100%nat.
Proof.
  apply (@iter_chunk_nonpositive_size_diverges (in_session emp_store) "emp" emp 0).
  - exists (mkHandle emp_store true true [] []). split; reflexivity.
  - discriminate.
  - lia.
Defined.

(** ** [push]: composition and failure *)











(** When the engine refuses the copy (the table exists with another
    number of columns), [push] raises the engine's error before it
    reaches [unregister]: the transient view stays registered and the
    tables are as before. *)
Theorem push_failure_keeps_view (st : state) (h : handle) (df : slice)
  (tn : string) (t : table) :
  the_conn st = Ok h ->
  find_table tn (tables (work h)) = Some t ->
  List.length (header t) <> List.length (columns df) ->
  exists msg st',
    push df tn st = (Raised (EngineError msg), st') /\
    find_view (next_view_name st) (views_of st') = Some df /\
    work_of st' = work h /\ disk st' = disk st.
Proof.
  intros Hc Ht Hlen.
  assert (Hl : table_listed tn (work h) = true).
  { destruct (table_listed tn (work h)) eqn:E; [reflexivity|].
    apply find_table_listed in E. congruence. }
  rewrite (@push_unfold df tn st h Hc). cbv zeta. rewrite Hl. cbn [negb].
  erewrite execute_fails; [|reflexivity|].
  2:{ cbn [work]. unfold sql_insert_select, get_table. rewrite Ht. cbn [bind].
      apply Nat.eqb_neq in Hlen. rewrite Hlen. reflexivity. }
  eexists _, _. split; [reflexivity|].
  cbn [views_of work_of set_conn conn views work find_view disk bump].
  rewrite name_eqb_refl. repeat split.
Qed.

Lemma push_failure_keeps_view_witness :
  exists msg st',
    push (mkSlice ["a"] [mkRow 5 [VInt 1]]) "Emp" (in_session emp_store) =
      (Raised (EngineError msg), st') /\
    map fst (views_of st') = ["tempDFView0"].
Proof.
  destruct (@push_failure_keeps_view (in_session emp_store)
              (mkHandle emp_store true true [] [])
              (mkSlice ["a"] [mkRow 5 [VInt 1]]) "Emp" emp eq_refl eq_refl)
    as (msg & st' & Hp & _).
  - cbn. lia.
  - exists msg, st'. split; [exact Hp|].
    vm_compute in Hp. inversion Hp. reflexivity.
Defined.

(** Inside the transaction [push] writes nothing to the database file,
    whether it succeeds or fails, and the rollback of a failing exit
    takes the session back to what the file holds: nothing of the push is
    left in the tables. *)
Theorem push_then_rollback (st : state) (h : handle) (df : slice) (tn : string)
  (e : exn) :
  the_conn st = Ok h -> in_txn h = true ->
  let st1 := snd (push df tn st) in
  disk st1 = disk st /\
  exists st2, __exit__ (Some e) st1 = (Some e, st2) /\
              work_of st2 = disk st /\ disk st2 = disk st.
Proof.
  intros Hc Htx st1. subst st1.
  rewrite (@push_unfold df tn st h Hc). cbv zeta.
  set (hr := mkHandle (work h) (in_txn h) true (functions h)
                      ((next_view_name st, df) :: remove_view (next_view_name st) (views h))).
  set (str := set_conn (bump st) hr).
  assert (Hstr : the_conn str = Ok hr) by reflexivity.
  assert (Hgen : forall f : store -> result store,
            let st1 := snd (match execute f str with
                            | (Ok _, st2) => conn_unregister (next_view_name st) st2
                            | (Raised e0, st2) => (Raised e0, st2)
                            end) in
            disk st1 = disk st /\
            exists st2, __exit__ (Some e) st1 = (Some e, st2) /\
                        work_of st2 = disk st /\ disk st2 = disk st).
  { intro f. cbv zeta. unfold execute, run_write. rewrite Hstr. cbn [bind].
    destruct (f (work hr)) as [s'|e0]; cbn [bind snd];
      unfold conn_unregister, __exit__, conn_rollback, the_conn;
      subst hr str; cbn; rewrite ?Htx; cbn; rewrite ?Htx; cbn;
      (split; [reflexivity|]);
      (eexists; split; [reflexivity|]); split; reflexivity. }
  destruct (negb (table_listed tn (work h))); apply Hgen.
Qed.

Lemma push_then_rollback_witness :
  exists st2,
    __exit__ (Some (UserError 3))
             (snd (push (mkSlice ["a"] [mkRow 5 [VInt 1]]) "foo" (in_session emp_store)))
      = (Some (UserError 3), st2) /\
    map fst (tables (work_of st2)) = ["emp"].
Proof.
  destruct (@push_then_rollback (in_session emp_store)
              (mkHandle emp_store true true [] [])
              (mkSlice ["a"] [mkRow 5 [VInt 1]]) "foo" (UserError 3) eq_refl eq_refl)
    as (_ & st2 & Hx & Hw & _).
  exists st2. split; [exact Hx|]. rewrite Hw. reflexivity.
Defined.

(** ** The codec on every value *)

Lemma append_nil_r (s : string) : (s ++ "")%string = s.
Proof. induction s as [|c s IH]; cbn; [reflexivity|]. now rewrite IH. Qed.

Lemma scan_once_int_end (fuel : nat) (z : Z) (rest : string) :
  ends_value rest ->
  scan_once (S fuel) (encode_int z ++ rest)%string = Parsed (PInt z) rest.
Proof.
  intros [Hdig Hfl].
  destruct z as [|p|p].
  - cbn -[float_follows]. rewrite Hfl. reflexivity.
  - cbn [encode_int]. rewrite <- (of_uint_pos p).
    pose proof (pos_to_uint_shape p) as Hs.
    destruct (Pos.to_uint p) as [|u|u|u|u|u|u|u|u|u|u]; try contradiction;
      cbn -[float_follows Z.of_uint scan_digits];
      rewrite (scan_digits_uint u _ Hdig), Hfl; reflexivity.
  - cbn [encode_int]. change (Zneg p) with (- Zpos p). rewrite <- (of_uint_pos p).
    pose proof (pos_to_uint_shape p) as Hs.
    destruct (Pos.to_uint p) as [|u|u|u|u|u|u|u|u|u|u]; try contradiction;
      cbn -[float_follows Z.of_uint scan_digits Z.opp];
      rewrite (scan_digits_uint u _ Hdig), Hfl; reflexivity.
Qed.

Lemma ends_value_delimiter (c : ascii) (r : string) :
  is_delimiter c = true -> ends_value (String c r).
Proof. intro H. apply delimiter_ends_number, H. Qed.

Lemma ends_value_empty : ends_value EmptyString.
Proof. split; reflexivity. Qed.

Lemma dumps_head_any (v : pyval) :
  exists c r, dumps v = String c r /\ is_ws c = false /\ Ascii.eqb c "]" = false.
Proof.
  destruct (is_primitive v) eqn:E; [apply dumps_head, E|].
  destruct v; try discriminate. rewrite dumps_list.
  eexists _, _. split; [reflexivity|split; reflexivity].
Qed.

Lemma items_head (l : list pyval) (rest : string) :
  l <> [] ->
  exists c r, (dumps_items l ++ rest)%string = String c r /\
              is_ws c = false /\ Ascii.eqb c "]" = false.
Proof.
  destruct l as [|x l]; [congruence|]. intros _.
  destruct (dumps_head_any x) as (c & r & Hc & Hws & Hb).
  cbn [dumps_items]. destruct l; rewrite Hc; cbn; eexists _, _;
    (split; [reflexivity|split; assumption]).
Qed.

Lemma skip_ws_head (s r : string) (c : ascii) :
  s = String c r -> is_ws c = false -> skip_ws s = s.
Proof. intros -> H. cbn. rewrite H. reflexivity. Qed.

(** With fuel for its size, every value is read back from its text, and
    so are the elements of a list up to the closing bracket. *)
Lemma scan_dumps (fuel : nat) :
  (forall v rest, (vsize v <= fuel)%nat -> ends_value rest ->
     scan_once fuel (dumps v ++ rest)%string = Parsed v rest) /\
  (forall l rest, l <> [] -> (esize l <= fuel)%nat ->
     scan_elements fuel (dumps_items l ++ String "]" rest)%string = Parsed l rest).
Proof.
  induction fuel as [|f [IH1 IH2]].
  - split.
    + intros v rest Hv. destruct v; cbn in Hv; lia.
    + intros l rest Hne Hl. destruct l; [congruence|]. cbn in Hl. lia.
  - split.
    + intros v rest Hv Hend. destruct v as [|[|]|z|s|l].
      * reflexivity.
      * reflexivity.
      * reflexivity.
      * apply scan_once_int_end, Hend.
      * cbn [dumps encode_str append]. rewrite append_assoc.
        cbn [scan_once append]. rewrite scanstring_encode_chars. reflexivity.
      * rewrite dumps_list. cbn [append]. rewrite append_assoc. cbn [append].
        destruct l as [|x l]; [reflexivity|].
        destruct (@items_head (x :: l) (String "]" rest)) as (c & r & Hc & Hws & Hb);
          [congruence|].
        rewrite (@scan_once_bracket f _ r c (eq_trans (skip_ws_head Hc Hws) Hc) Hb).
        rewrite <- Hc. rewrite IH2; [reflexivity|congruence|].
        cbn [vsize] in Hv. unfold esize. lia.
    + intros l rest Hne Hl. destruct l as [|x l]; [congruence|].
      unfold esize in Hl. cbn [fold_right] in Hl. fold (esize l) in Hl.
      destruct l as [|y l].
      * cbn [dumps_items]. apply scan_elements_close.
        apply IH1; [lia|]. apply ends_value_delimiter. reflexivity.
      * cbn [dumps_items]. rewrite !append_assoc. cbn [append].
        rewrite (@scan_elements_comma f _ (dumps_items (y :: l) ++ String "]" rest)%string x).
        -- destruct (@items_head (y :: l) (String "]" rest)) as (c & r & Hc & Hws & _);
             [congruence|].
           rewrite (skip_ws_head Hc Hws).
           rewrite IH2; [reflexivity|congruence|lia].
        -- apply IH1; [lia|]. apply ends_value_delimiter. reflexivity.
Qed.

Lemma esize_bound (l : list pyval) :
  (forall x, In x l -> (vsize x <= String.length (dumps x))%nat) ->
  l <> [] -> (esize l <= String.length (dumps_items l) + 1)%nat.
Proof.
  induction l as [|x l IH]; intros Hx Hne; [congruence|].
  unfold esize. cbn [fold_right]. fold (esize l).
  pose proof (Hx x (or_introl eq_refl)) as H0.
  cbn [dumps_items]. destruct l as [|y l].
  - cbn. lia.
  - rewrite !length_append.
    assert (IH' : (esize (y :: l) <= String.length (dumps_items (y :: l)) + 1)%nat).
    { apply IH; [intros z Hz; apply Hx; now right|congruence]. }
    cbn [String.length]. lia.
Qed.

Lemma vsize_In (l : list pyval) (x : pyval) :
  In x l -> (vsize x < vsize (PList l))%nat.
Proof.
  cbn [vsize]. induction l as [|y l IH]; intros []; cbn [fold_right].
  - subst. lia.
  - specialize (IH H). lia.
Qed.

Lemma vsize_bound (n : nat) :
  forall v, (vsize v <= n)%nat -> (vsize v <= String.length (dumps v))%nat.
Proof.
  induction n as [|n IH]; intros v Hv.
  - destruct v; cbn in Hv; lia.
  - destruct (is_primitive v) eqn:E.
    + destruct (dumps_head v E) as (c & r & Hc & _). rewrite Hc.
      destruct v; try discriminate; cbn; lia.
    + destruct v as [| | | |l]; try discriminate.
      rewrite dumps_list. cbn [String.length]. rewrite length_append.
      destruct l as [|x l]; [cbn; lia|].
      assert (Hb : (esize (x :: l) <= String.length (dumps_items (x :: l)) + 1)%nat).
      { apply esize_bound; [|congruence].
        intros y Hy. apply IH. pose proof (vsize_In _ _ Hy). lia. }
      change (vsize (PList (x :: l))) with (Datatypes.S (esize (x :: l))).
      cbn [String.length]. lia.
Qed.

(** The scan of the text of a value with the fuel [json.loads] gives
    it. *)
Lemma scan_dumps_top (v : pyval) :
  scan_once (S (String.length (dumps v))) (skip_ws (dumps v)) = Parsed v EmptyString.
Proof.
  destruct (dumps_head_any v) as (c & r & Hc & Hws & _).
  rewrite (skip_ws_head Hc Hws).
  rewrite <- (append_nil_r (dumps v)) at 2.
  apply (proj1 (scan_dumps (S (String.length (dumps v))))).
  - pose proof (@vsize_bound (vsize v) v (Nat.le_refl _)). lia.
  - apply ends_value_empty.
Qed.

(** Every value is read back from the text [json.dumps] writes for it:
    lists nested to any depth, and scalars too, so a text argument that
    is the encoding of a value reaches the wrapped function as that
    value. *)
Theorem json_codec_roundtrip (v : pyval) :
  loads (dumps v) = Decoded v /\ deserialize (PStr (dumps v)) = Some v.
Proof.
  assert (H : loads (dumps v) = Decoded v).
  { unfold loads. rewrite scan_dumps_top. reflexivity. }
  split; [exact H|]. cbn [deserialize]. rewrite H. reflexivity.
Qed.

(** ** [json_wrap]: arguments, results, and chains *)

Lemma json_wrap_result (func : list pyval -> pyval) (args dargs : list pyval) :
  deserialize_all args = Some dargs ->
  json_wrap func args = Some (wrap_result (func dargs)).
Proof. intro H. unfold json_wrap. rewrite H. reflexivity. Qed.

(** What one wrapped function returns reaches the next wrapped function
    as the very value the first one computed, unless that value is a
    text: a list, nested to any depth, crosses as its envelope and is
    decoded back, and [None], booleans and integers cross as they are. *)
Theorem json_wrap_chain (f g : list pyval -> pyval) (args dargs : list pyval) :
  deserialize_all args = Some dargs ->
  is_text (f dargs) = false ->
  exists out,
    json_wrap f args = Some out /\
    deserialize out = Some (f dargs) /\
    json_wrap g [out] = Some (wrap_result (g [f dargs])).
Proof.
  intros Hargs Htext. exists (wrap_result (f dargs)).
  assert (Hd : deserialize (wrap_result (f dargs)) = Some (f dargs)).
  { destruct (f dargs) as [|b|z|s|l] eqn:E; try discriminate; try reflexivity.
    cbn [wrap_result deserialize]. unfold loads.
    rewrite scan_dumps_top. reflexivity. }
  split; [apply json_wrap_result, Hargs|]. split; [exact Hd|].
  apply json_wrap_result. cbn [deserialize_all]. rewrite Hd. reflexivity.
Qed.

Lemma json_wrap_chain_witness :
  exists out,
    json_wrap (fun a => PList (a ++ [PList a])) [PInt 3; PStr "[1, 2]"] = Some out /\
    json_wrap an_echo [out] =
      Some (PStr "[3, [1, 2], [3, [1, 2]]]").
Proof.
  destruct (@json_wrap_chain (fun a => PList (a ++ [PList a])) an_echo
              [PInt 3; PStr "[1, 2]"] [PInt 3; PList [PInt 1; PInt 2]]
              eq_refl eq_refl) as (out & Hf & _ & Hg).
  exists out. split; [exact Hf|]. rewrite Hg. reflexivity.
Defined.

(** An argument that is not a text, and a text that does not begin like
    a JSON value (after blanks), reach the wrapped function unchanged:
    decoding fails and the wrapper keeps the text. *)
Theorem json_wrap_keeps_plain_arguments (func : list pyval -> pyval) (s : string) :
  head_is starts_json (skip_ws s) = false ->
  loads s = JSONDecodeError /\
  deserialize (PStr s) = Some (PStr s) /\
  (forall v, is_text v = false ->
     json_wrap func [v; PStr s] = Some (wrap_result (func [v; PStr s]))).
Proof.
  intro Hs.
  assert (H : loads s = JSONDecodeError).
  { unfold loads. destruct (skip_ws s) as [|c r]; [reflexivity|].
    cbn [head_is] in Hs. cbn [scan_once].
    destruct c as [[|] [|] [|] [|] [|] [|] [|] [|]]; try discriminate Hs; reflexivity. }
  split; [exact H|].
  assert (Hd : deserialize (PStr s) = Some (PStr s)).
  { cbn [deserialize]. rewrite H. reflexivity. }
  split; [exact Hd|].
  intros v Hv. apply json_wrap_result. cbn [deserialize_all]. rewrite Hd.
  destruct v; try discriminate; reflexivity.
Qed.

Lemma json_wrap_keeps_plain_arguments_witness :
  json_wrap an_echo [PInt 1; PStr "  SMITH"] = Some (PInt 1) /\
  deserialize (PStr "  SMITH") = Some (PStr "  SMITH").
Proof.
  destruct (@json_wrap_keeps_plain_arguments an_echo "  SMITH" eq_refl)
    as (_ & Hd & Hw).
  split; [|exact Hd]. rewrite (Hw (PInt 1) eq_refl). reflexivity.
Defined.

(** ** What the iterators and [push] leave alone *)

Lemma keeps_ret {A} (a : A) : keeps_tables (ret a).
Proof. intro st. reflexivity. Qed.

Lemma keeps_raise {A} (e : exn) : keeps_tables (@raise A e).
Proof. intro st. reflexivity. Qed.

Lemma keeps_lift {A} (r : result A) : keeps_tables (lift r).
Proof. intro st. reflexivity. Qed.

Lemma keeps_query {A} (q : store -> result A) : keeps_tables (query q).
Proof. intro st. unfold query. destruct (the_conn st); reflexivity. Qed.

Lemma keeps_uuid4 : keeps_tables uuid4.
Proof. intro st. reflexivity. Qed.

Lemma keeps_bind {A B} (m : M A) (k : A -> M B) :
  keeps_tables m -> (forall a, keeps_tables (k a)) -> keeps_tables (bindM m k).
Proof.
  intros Hm Hk st. unfold bindM. specialize (Hm st).
  destruct (m st) as [[a|e] st1]; cbn [snd] in *.
  - rewrite (Hk a st1). exact Hm.
  - exact Hm.
Qed.

Lemma keeps_execute (f : store -> result store) :
  (forall s s', f s = Ok s' -> tables s' = tables s) -> keeps_tables (execute f).
Proof.
  intros Hf st. unfold execute, run_write.
  destruct (the_conn st) as [h|e] eqn:Hc; cbn [bind]; [|reflexivity].
  destruct (f (work h)) as [s'|e] eqn:E; cbn [bind snd]; [|reflexivity].
  cbn [work_of conn work]. rewrite (Hf _ _ E), (work_of_conn _ Hc). reflexivity.
Qed.

Lemma create_index_tables (name tn : string) (cols : list string) (s s' : store) :
  sql_create_index name tn cols s = Ok s' -> tables s' = tables s.
Proof.
  unfold sql_create_index.
  destruct (get_table tn s) as [t|]; cbn [bind]; [|discriminate].
  destruct (get_cols cols t); cbn [bind]; [|discriminate].
  destruct (existsb _ _); [discriminate|]. intro H. inversion H. reflexivity.
Qed.

Lemma drop_index_tables (name : string) (s s' : store) :
  sql_drop_index name s = Ok s' -> tables s' = tables s.
Proof.
  unfold sql_drop_index. destruct (existsb _ _); [|discriminate].
  intro H. inversion H. reflexivity.
Qed.

Lemma iter_group_keeps (g : group_gen) : keeps_tables (iter_group g).
Proof.
  assert (Hfor : forall idx tn cols groups, keeps_tables (group_for idx tn cols groups)).
  { intros idx tn cols groups. unfold group_for. destruct groups.
    - apply keeps_bind; [apply keeps_execute, drop_index_tables|intro; apply keeps_ret].
    - apply keeps_bind; [apply keeps_query|intro; apply keeps_ret]. }
  destruct g as [tn [cols|]|idx tn cols groups]; cbn [iter_group].
  - apply keeps_bind; [apply keeps_uuid4|]. intro tok.
    apply keeps_bind; [apply keeps_execute; intros s s'; apply create_index_tables|].
    intros _. apply keeps_bind; [apply keeps_query|]. intro groups. apply Hfor.
  - apply keeps_raise.
  - apply Hfor.
Qed.

Lemma iter_window_keeps (g : window_gen) : keeps_tables (iter_window g).
Proof.
  assert (Hwhile : forall idx tn refcol ws ss e cs ce,
            keeps_tables (window_while idx tn refcol ws ss e cs ce)).
  { intros. unfold window_while. apply keeps_bind; [apply keeps_lift|].
    intros [|].
    - apply keeps_bind; [apply keeps_query|intro; apply keeps_ret].
    - apply keeps_bind; [apply keeps_execute, drop_index_tables|intro; apply keeps_ret]. }
  destruct g as [tn refcol ws ss start end_|idx tn refcol ws ss end_ cs];
    cbn [iter_window].
  - apply keeps_bind; [apply keeps_uuid4|]. intro tok.
    apply keeps_bind; [apply keeps_execute; intros s s'; apply create_index_tables|].
    intros _. apply keeps_bind; [apply keeps_query|]. intro bounds.
    apply keeps_bind; [apply keeps_lift|]. intro ce. apply Hwhile.
  - apply keeps_bind; [apply keeps_lift|]. intro cs'.
    apply keeps_bind; [apply keeps_lift|]. intro ce. apply Hwhile.
Qed.

Lemma drain_keeps {G} (next : G -> gen_step G) :
  (forall g, keeps_tables (next g)) ->
  forall fuel g st,
  tables (work_of (final_state (drain next fuel g st))) = tables (work_of st).
Proof.
  intros Hnext. induction fuel as [|fuel IH]; intros g st; [reflexivity|].
  cbn [drain]. specialize (Hnext g st).
  destruct (next g st) as [[[[df g']|]|e] st1]; cbn [snd] in Hnext;
    try exact Hnext.
  specialize (IH g' st1).
  destruct (drain next fuel g' st1) as [[dfs en] st2].
  unfold final_state in *. cbn [snd] in *. congruence.
Qed.

(** The iterators only read the tables: however far an iteration gets,
    from whatever state, and whether it ends, fails or is abandoned, the
    tables of the store are as they were. *)
Theorem iterators_keep_tables (fuel : nat) (st : state) :
  (forall g, tables (work_of (final_state (drain iter_group fuel g st)))
             = tables (work_of st)) /\
  (forall g, tables (work_of (final_state (drain iter_window fuel g st)))
             = tables (work_of st)) /\
  (forall g, final_state (drain iter_chunk fuel g st) = st).
Proof.
  split; [|split].
  - intro g. apply drain_keeps, iter_group_keeps.
  - intro g. apply drain_keeps, iter_window_keeps.
  - revert st. induction fuel as [|fuel IH]; intros st g; [reflexivity|].
    cbn [drain]. pose proof (iter_chunk_state g st) as Hs.
    destruct (iter_chunk g st) as [[[[df g']|]|e] st1]; cbn [snd] in Hs; subst st1;
      try reflexivity.
    specialize (IH st g').
    destruct (drain iter_chunk fuel g' st) as [[dfs en] st2].
    unfold final_state in *. cbn [snd] in *. exact IH.
Qed.

Lemma find_table_other_new (tn tn' : string) (t : table) (ts : list (string * table)) :
  name_eqb tn' tn = false ->
  find_table tn' (ts ++ [(tn, t)]) = find_table tn' ts.
Proof.
  intro Hne. induction ts as [|[n t0] ts IH]; cbn.
  - rewrite Hne. reflexivity.
  - destruct (name_eqb tn' n); [reflexivity|exact IH].
Qed.

Lemma name_eqb_trans_false (a b c : string) :
  name_eqb a b = true -> name_eqb c a = false -> name_eqb c b = false.
Proof.
  unfold name_eqb. intros H1 H2. apply String.eqb_eq in H1.
  rewrite <- H1. exact H2.
Qed.

Lemma find_table_other_append (tn tn' : string) (df : slice) (ts : list (string * table)) :
  name_eqb tn' tn = false ->
  find_table tn' (append_rows tn df ts) = find_table tn' ts.
Proof.
  intro Hne. induction ts as [|[n t0] ts IH]; cbn; [reflexivity|].
  destruct (name_eqb tn n) eqn:E; cbn.
  - rewrite (name_eqb_trans_false _ _ _ E Hne). reflexivity.
  - destruct (name_eqb tn' n); [reflexivity|exact IH].
Qed.

(** [push] touches one table only: under any other name the session
    finds the same table afterwards as before, whether the push succeeded
    or raised. *)
Theorem push_keeps_other_tables (st : state) (df : slice) (tn tn' : string) :
  name_eqb tn' tn = false ->
  find_table tn' (tables (work_of (snd (push df tn st)))) =
  find_table tn' (tables (work_of st)).
Proof.
  intro Hne. destruct (the_conn st) as [h|e] eqn:Hc.
  - rewrite (@push_unfold df tn st h Hc). cbv zeta.
    rewrite (work_of_conn _ Hc).
    unfold execute, run_write.
    destruct (negb (table_listed tn (work h))); cbn [the_conn set_conn conn is_open bind work].
    + unfold sql_create_table_as.
      destruct (find_table tn (tables (work h))); cbn [bind snd]; [reflexivity|].
      unfold conn_unregister. cbn. apply find_table_other_new, Hne.
    + unfold sql_insert_select.
      destruct (get_table tn (work h)) as [t|]; cbn [bind snd]; [|reflexivity].
      destruct (negb _); cbn [bind snd]; [reflexivity|].
      unfold conn_unregister. cbn. apply find_table_other_append, Hne.
  - unfold push, bindM, query. rewrite Hc. reflexivity.
Qed.

Lemma push_keeps_other_tables_witness :
  find_table "emp"
    (tables (work_of (snd (push (mkSlice ["a"] [mkRow 5 [VInt 1]]) "foo"
                                (in_session emp_store))))) = Some emp.
Proof.
  rewrite (@push_keeps_other_tables (in_session emp_store)
             (mkSlice ["a"] [mkRow 5 [VInt 1]]) "foo" "emp" eq_refl).
  reflexivity.
Defined.
